(** * cdsdl: download Climate Data Store datasets, month by month

    A shallow embedding of [cdsdl.py].  The script is a double loop over
    years and months that talks to its surroundings through five calls:
    [datetime.now], [os.path.isfile], [os.makedirs], [cdsapi.Client] and
    [client.retrieve].  These calls are the fields of a [System]; the
    script itself is a computation in a small monad that threads the state
    of the world, records every call in a trace and stops at the first
    exception. *)

From Stdlib Require Import ZArith Lia Ascii String.
From stdpp Require Import base tactics option strings list list_numbers
  pretty sorting gmap.

Local Open Scope Z_scope.

(** ** Python values and string formatting *)

(** What the variable [year] holds: the integer the outer loop binds it
    to, or the string the loop body assigns to it. *)
Inductive scalar :=
  | PInt (z : Z)
  | PStr (s : string).

(** [f"{v}"] for an integer or a string. *)
Definition format_plain (v : scalar) : string :=
  match v with
  | PInt z => pretty z
  | PStr s => s
  end.

(** The values of the request dictionary: strings and lists of strings. *)
Inductive pyval :=
  | VStr (s : string)
  | VList (l : list string).

(** [f"{n:02d}"]: decimal, padded with zeros on the left to width two (a
    negative number already has two characters). *)
Definition format_02d (n : Z) : string :=
  let s := pretty n in
  if (String.length s <? 2)%nat then "0" +:+ s else s.

(** Does the character occur in the string? *)
Fixpoint has_char (c : ascii) (s : string) : bool :=
  match s with
  | EmptyString => false
  | String c' rest => bool_decide (c' = c) || has_char c rest
  end.

(** [range(a, b)] *)
Definition range (a b : Z) : list Z := seqZ a (b - a).

(** ** [os.path.join] (the POSIX flavour, two arguments) *)

Definition startswith_sep (s : string) : bool :=
  match s with
  | String "/"%char _ => true
  | _ => false
  end.

Fixpoint endswith_sep (s : string) : bool :=
  match s with
  | EmptyString => false
  | String c EmptyString => bool_decide (c = "/"%char)
  | String _ rest => endswith_sep rest
  end.

Definition os_path_join (a b : string) : string :=
  if startswith_sep b then b
  else if bool_decide (a = EmptyString) || endswith_sep a then a +:+ b
  else a +:+ "/" +:+ b.

(** ** The command line *)

(** The namespace returned by [parser.parse_args()]; [opt_output_directory]
    holds [os.fspath] of the parsed [pathlib.Path]. *)
Record Options := {
  opt_dataset : string;
  opt_variable : string;
  opt_output_directory : string;
  opt_start : Z;
  opt_end : Z;
}.

(** ** The world outside the script *)

Record datetime := { dt_year : Z; dt_month : Z }.

(** A request is a Python dict literal: keys in the order they are written. *)
Definition request := list (string * pyval).

Inductive Event :=
  | EvMakedirs (path : string) (exist_ok : bool)
  | EvClient
  | EvNow (now : datetime)
  | EvIsfile (path : string) (result : bool)
  | EvPrint (line : string)
  | EvRetrieve (dataset : string) (req : request) (target : string).

(** How a [for] loop ends: its sequence ran out, or a [break] left it. *)
Inductive loop_exit := Exhausted | Broke.

(** The three progress lines. *)
Definition msg_current (target : string) : string :=
  "--> skipping: " +:+ target +:+ ": current month not yet complete".
Definition msg_exists (target : string) : string :=
  "--> skipping: " +:+ target +:+ ": already exists".
Definition msg_downloading (target : string) : string :=
  "--> downloading " +:+ target +:+ " ...".

Definition days : list string :=
  [ "01"; "02"; "03";
    "04"; "05"; "06";
    "07"; "08"; "09";
    "10"; "11"; "12";
    "13"; "14"; "15";
    "16"; "17"; "18";
    "19"; "20"; "21";
    "22"; "23"; "24";
    "25"; "26"; "27";
    "28"; "29"; "30";
    "31" ].

Definition times : list string :=
  [ "00:00"; "01:00"; "02:00";
    "03:00"; "04:00"; "05:00";
    "06:00"; "07:00"; "08:00";
    "09:00"; "10:00"; "11:00";
    "12:00"; "13:00"; "14:00";
    "15:00"; "16:00"; "17:00";
    "18:00"; "19:00"; "20:00";
    "21:00"; "22:00"; "23:00" ].

(** The request dictionary built for one month. *)
Definition build_request (variable year month : string) : request :=
  [ ("variable", VList [variable]);
    ("year", VStr year);
    ("month", VStr month);
    ("day", VList days);
    ("time", VList times);
    ("data_format", VStr "netcdf");
    ("download_format", VStr "unarchived") ].

(** The operating system, the clock and the archive client.  Every call
    that can raise returns either the exception or the next world. *)
Record System (World Err : Type) := {
  datetime_now : World → datetime * World;
  os_path_isfile : string → World → bool;
  os_makedirs : string → bool → World → Err + World;
  cdsapi_Client : World → Err + World;
  client_retrieve : string → request → string → World → Err + World;
}.
Arguments datetime_now {World Err} _ _.
Arguments os_path_isfile {World Err} _ _ _.
Arguments os_makedirs {World Err} _ _ _ _.
Arguments cdsapi_Client {World Err} _ _.
Arguments client_retrieve {World Err} _ _ _ _ _.

(** What ends the script early: [sys.exit(msg)], or an exception of one of
    the calls above, which the script never catches. *)
Inductive Exn (Err : Type) :=
  | SystemExit (msg : string)
  | Propagated (e : Err).
Arguments SystemExit {Err} _.
Arguments Propagated {Err} _.

(** [sys.exit] with a string prints it and exits with status 1; an uncaught
    exception exits with status 1 as well; falling off the end gives 0. *)
Definition exit_status {Err A} (o : Exn Err + A) : Z :=
  match o with
  | inl _ => 1
  | inr _ => 0
  end.

(** ** The monad: world passing, a trace, and exceptions *)

Definition M (World Err A : Type) : Type :=
  World → (Exn Err + A) * World * list Event.

Global Instance M_ret {World Err} : MRet (M World Err) :=
  λ A a w, (inr a, w, []).

Global Instance M_bind {World Err} : MBind (M World Err) :=
  λ A B f m w,
    match m w with
    | (inl e, w1, t1) => (inl e, w1, t1)
    | (inr a, w1, t1) =>
        match f a w1 with
        | (o, w2, t2) => (o, w2, t1 ++ t2)
        end
    end.

(** The three parts of what a computation returns. *)
Abbreviation outcome r := (r.1.1) (only parsing).
Abbreviation final r := (r.1.2) (only parsing).
Abbreviation trace r := (r.2) (only parsing).

Section Program.
Context {World Err : Type}.
Variable sys : System World Err.

Local Abbreviation M := (M World Err).

Definition sys_exit {A} (msg : string) : M A :=
  λ w, (inl (SystemExit msg), w, []).

(** [print(line)], taken to succeed: the line goes out and the world stays
    as it is.  The script with a standard output that can fail is
    [Piped.main] below; [piped_main_quiet] relates the two. *)
Definition print (line : string) : M unit :=
  λ w, (inr tt, w, [EvPrint line]).

Definition call_now : M datetime :=
  λ w, let '(now, w') := datetime_now sys w in (inr now, w', [EvNow now]).

Definition call_isfile (path : string) : M bool :=
  λ w, let b := os_path_isfile sys path w in (inr b, w, [EvIsfile path b]).

Definition lift_call (ev : Event) (r : Err + World) (w : World)
    : (Exn Err + unit) * World * list Event :=
  match r with
  | inl e => (inl (Propagated e), w, [ev])
  | inr w' => (inr tt, w', [ev])
  end.

Definition call_makedirs (path : string) (exist_ok : bool) : M unit :=
  λ w, lift_call (EvMakedirs path exist_ok) (os_makedirs sys path exist_ok w) w.

Definition call_Client : M unit :=
  λ w, lift_call EvClient (cdsapi_Client sys w) w.

Definition call_retrieve (dataset : string) (req : request) (target : string)
    : M unit :=
  λ w, lift_call (EvRetrieve dataset req target)
         (client_retrieve sys dataset req target w) w.

(** ** The script *)

(** [for month in range(1, 13): ...] for one year.  [year] is the loop
    variable of the outer loop: an integer on entry, and the string the
    body assigns to it from the second month on. *)
Fixpoint months_loop (dataset variable output_directory : string)
    (year : scalar) (months : list Z) : M loop_exit :=
  match months with
  | [] => mret Exhausted
  | month :: rest =>
      let year := format_plain year in
      let month := format_02d month in
      let target := os_path_join output_directory (year +:+ "_" +:+ month +:+ ".nc") in
      now ← call_now;
      if String.eqb (year +:+ "_" +:+ month)
           (pretty (dt_year now) +:+ "_" +:+ format_02d (dt_month now))
      then
        print (msg_current target);;
        mret Broke
      else
        present ← call_isfile target;
        if (present : bool) then
          print (msg_exists target);;
          months_loop dataset variable output_directory (PStr year) rest
        else
          print (msg_downloading target);;
          call_retrieve dataset (build_request variable year month) target;;
          months_loop dataset variable output_directory (PStr year) rest
  end.

(** [for year in range(start_year, end_year): ...] *)
Fixpoint years_loop (dataset variable output_directory : string)
    (years : list Z) : M unit :=
  match years with
  | [] => mret tt
  | year :: rest =>
      months_loop dataset variable output_directory (PInt year) (range 1 13);;
      years_loop dataset variable output_directory rest
  end.

Definition main (options : Options) : M unit :=
  let dataset := opt_dataset options in
  let variable := opt_variable options in
  let output_directory := os_path_join (opt_output_directory options) variable in
  let start_year := opt_start options in
  let end_year := opt_end options in
  if negb (start_year <? end_year) then
    sys_exit "start year must be less than end year"
  else
    call_makedirs output_directory true;;
    call_Client;;
    years_loop dataset variable output_directory (range start_year end_year).

End Program.


(** ** Vocabulary for the statements *)

(** A cell of the grid: a year and a month. *)
Definition cell : Type := Z * Z.

(** Chronological order on cells. *)
Definition cell_lt (c1 c2 : cell) : Prop :=
  c1.1 < c2.1 ∨ (c1.1 = c2.1 ∧ c1.2 < c2.2).

(** The years from [start] to [end - 1], each with the months 1 to 12. *)
Definition grid (start_year end_year : Z) : list cell :=
  y ← range start_year end_year; pair y <$> range 1 13.

Definition file_name (c : cell) : string :=
  pretty c.1 +:+ "_" +:+ format_02d c.2 +:+ ".nc".

Definition target_of (dir : string) (c : cell) : string :=
  os_path_join dir (file_name c).

Definition request_of (variable : string) (c : cell) : request :=
  build_request variable (pretty c.1) (format_02d c.2).

(** The clock shows the month of this cell. *)
Definition is_now (now : datetime) (c : cell) : Prop :=
  dt_year now = c.1 ∧ dt_month now = c.2.

(** The value of the variable [year] while the months of year [y] run. *)
Definition year_is (v : scalar) (y : Z) : Prop :=
  v = PInt y ∨ v = PStr (pretty y).

(** What the loop body does with one cell. *)
Inductive action := SkipCurrent | SkipExists | Download.

Record step := {
  st_cell : cell;
  st_now : datetime;
  st_action : action;
}.

(** The calls one pass through the loop body makes. *)
Definition step_events (dataset variable dir : string) (st : step) : list Event :=
  let target := target_of dir (st_cell st) in
  EvNow (st_now st) ::
  match st_action st with
  | SkipCurrent => [EvPrint (msg_current target)]
  | SkipExists => [EvIsfile target true; EvPrint (msg_exists target)]
  | Download =>
      [EvIsfile target false; EvPrint (msg_downloading target);
       EvRetrieve dataset (request_of variable (st_cell st)) target]
  end.

(** The events of the pass over cell [c] that read [now] from the clock. *)
Definition pass_events (dataset variable dir : string)
    (now : datetime) (c : cell) (a : action) : list Event :=
  step_events dataset variable dir
    {| st_cell := c; st_now := now; st_action := a |}.

(** All events of a list of passes. *)
Definition steps_events (dataset variable dir : string)
    (steps : list step) : list Event :=
  concat (step_events dataset variable dir <$> steps).

(** The retrieval call of a cell. *)
Definition fetch (dataset variable dir : string) (c : cell)
    : string * request * string :=
  (dataset, request_of variable c, target_of dir c).

Definition is_download (st : step) : bool :=
  match st_action st with
  | Download => true
  | _ => false
  end.

(** The passes a year can consist of: the months in order; a pass that
    finds the clock on its own cell is a [SkipCurrent] and the last of its
    year; the year may also stop after any pass (an exception). *)
Inductive year_steps (y : Z) : list Z → list step → Prop :=
  | year_stop months :
      year_steps y months []
  | year_current m months now :
      is_now now (y, m) →
      year_steps y (m :: months)
        [{| st_cell := (y, m); st_now := now; st_action := SkipCurrent |}]
  | year_exists m months now steps :
      ¬ is_now now (y, m) →
      year_steps y months steps →
      year_steps y (m :: months)
        ({| st_cell := (y, m); st_now := now; st_action := SkipExists |} :: steps)
  | year_download m months now steps :
      ¬ is_now now (y, m) →
      year_steps y months steps →
      year_steps y (m :: months)
        ({| st_cell := (y, m); st_now := now; st_action := Download |} :: steps).

(** The passes of a whole run: year after year. *)
Inductive run_steps : list Z → list step → Prop :=
  | run_stop years :
      run_steps years []
  | run_year y years steps1 steps2 :
      year_steps y (range 1 13) steps1 →
      run_steps years steps2 →
      run_steps (y :: years) (steps1 ++ steps2).

(** The directory the script works in: [os.path.join(output_directory, variable)]. *)
Definition output_dir (options : Options) : string :=
  os_path_join (opt_output_directory options) (opt_variable options).

(** The layout the files are meant to have:
    [<output_directory>/<variable>/<year>_<month>.nc]. *)
Definition layout_dir (options : Options) : string :=
  opt_output_directory options +:+ "/" +:+ opt_variable options.

Definition layout_path (options : Options) (c : cell) : string :=
  opt_output_directory options +:+ "/" +:+ opt_variable options +:+ "/" +:+
  pretty c.1 +:+ "_" +:+ format_02d c.2 +:+ ".nc".

(** The request as the interface describes it: the days "01" to "31" and
    the hours "00:00" to "23:00", whatever the month. *)
Definition described_request (variable : string) (c : cell) : request :=
  [ ("variable", VList [variable]);
    ("year", VStr (pretty c.1));
    ("month", VStr (format_02d c.2));
    ("day", VList (format_02d <$> seqZ 1 31));
    ("time", VList ((λ h, format_02d h +:+ ":00") <$> seqZ 0 24));
    ("data_format", VStr "netcdf");
    ("download_format", VStr "unarchived") ].

(** The retrieval calls of a trace, in order. *)
Definition retrievals (t : list Event) : list (string * request * string) :=
  omap (λ e, match e with
             | EvRetrieve d r p => Some (d, r, p)
             | _ => None
             end) t.

(** The paths a trace hands to [os.path.isfile] and to [client.retrieve]. *)
Definition paths_used (t : list Event) : list string :=
  omap (λ e, match e with
             | EvIsfile p _ => Some p
             | EvRetrieve _ _ p => Some p
             | _ => None
             end) t.

(** A directory name the way [pathlib] prints it (the root apart), and a
    variable that is a single relative name. *)
Definition plain_directory (s : string) : Prop :=
  s ≠ EmptyString ∧ endswith_sep s = false.
Definition plain_name (s : string) : Prop :=
  s ≠ EmptyString ∧ startswith_sep s = false ∧ endswith_sep s = false.

(** ** Assumptions on the world, for the statements that need them *)

Section Laws.
Context {World Err : Type}.
Variable sys : System World Err.

(** Files stay: no call removes a regular file, and a retrieval that
    returns has written its target. *)
Record persistent : Prop := {
  now_keeps : ∀ w p,
    os_path_isfile sys p (datetime_now sys w).2 = os_path_isfile sys p w;
  makedirs_keeps : ∀ d ok w w' p,
    os_makedirs sys d ok w = inr w' →
    os_path_isfile sys p w' = os_path_isfile sys p w;
  client_keeps : ∀ w w' p,
    cdsapi_Client sys w = inr w' →
    os_path_isfile sys p w' = os_path_isfile sys p w;
  retrieve_keeps : ∀ ds rq t w w' p,
    client_retrieve sys ds rq t w = inr w' →
    os_path_isfile sys p w = true → os_path_isfile sys p w' = true;
  retrieve_writes : ∀ ds rq t w w',
    client_retrieve sys ds rq t w = inr w' →
    os_path_isfile sys t w' = true;
}.

(** No call raises, and a retrieval writes no file but its target. *)
Record reliable : Prop := {
  makedirs_returns : ∀ d w, ∃ w', os_makedirs sys d true w = inr w';
  client_returns : ∀ w, ∃ w', cdsapi_Client sys w = inr w';
  retrieve_returns : ∀ ds rq t w, ∃ w', client_retrieve sys ds rq t w = inr w';
  retrieve_only : ∀ ds rq t w w' p,
    client_retrieve sys ds rq t w = inr w' →
    p ≠ t → os_path_isfile sys p w' = os_path_isfile sys p w;
}.

(** The calendar month does not change while the script runs. *)
Definition steady_clock (now : datetime) : Prop :=
  ∀ w, (datetime_now sys w).1 = now.

End Laws.

(** The months [ms] of year [y] need no retrieval in world [w]: going
    through them, each has its target on disk, up to the month the clock
    shows (if it is among them). *)
Fixpoint covered {World Err} (sys : System World Err) (dir : string)
    (now : datetime) (w : World) (y : Z) (ms : list Z) : Prop :=
  match ms with
  | [] => True
  | m :: rest =>
      is_now now (y, m)
      ∨ (os_path_isfile sys (target_of dir (y, m)) w = true
         ∧ covered sys dir now w y rest)
  end.

(** ** A simulated world, to run the script *)

Module Sim.

(** Regular files and directories. *)
Record world := {
  files : gset string;
  dirs : gset string;
}.

(** A clock that stays on [now], and an archive that writes every target
    it is asked for. *)
Definition archive (now : datetime) : System world string := {|
  datetime_now w := (now, w);
  os_path_isfile p w := bool_decide (p ∈ files w);
  os_makedirs p exist_ok w :=
    if bool_decide (p ∈ dirs w) && negb exist_ok then inl "FileExistsError"
    else inr {| files := files w; dirs := {[p]} ∪ dirs w |};
  cdsapi_Client w := inr w;
  client_retrieve _ _ target w :=
    inr {| files := {[target]} ∪ files w; dirs := dirs w |};
|}.

Definition month (y m : Z) : datetime := {| dt_year := y; dt_month := m |}.

(** A disk with the given regular files. *)
Definition disk (fs : list string) : world :=
  {| files := list_to_set fs; dirs := ∅ |}.

Definition era5 (start_year end_year : Z) : Options :=
  {| opt_dataset := "reanalysis-era5-land";
     opt_variable := "total_precipitation";
     opt_output_directory := "/data/db/cds";
     opt_start := start_year;
     opt_end := end_year |}.

(** The same request with an absolute path as the variable. *)
Definition absolute : Options :=
  {| opt_dataset := "reanalysis-era5-land";
     opt_variable := "/srv/era5";
     opt_output_directory := "/data/db/cds";
     opt_start := 2020;
     opt_end := 2021 |}.

End Sim.

(** ** More vocabulary: failures and the plan of a run *)

(** The call recorded as [ev] raises [e] in world [w]. *)
Definition raises {World Err} (sys : System World Err) (ev : Event)
    (w : World) (e : Err) : Prop :=
  match ev with
  | EvMakedirs d ok => os_makedirs sys d ok w = inl e
  | EvClient => cdsapi_Client sys w = inl e
  | EvRetrieve ds rq t => client_retrieve sys ds rq t w = inl e
  | _ => False
  end.

(** The guard holds the cell back: it is in the year the clock shows, the
    month the clock shows is one of the twelve, and the cell is that month
    or a later one. *)
Definition held_back (now : datetime) (c : cell) : bool :=
  (c.1 =? dt_year now) && (1 <=? dt_month now) && (dt_month now <=? 12)
  && (dt_month now <=? c.2).

(** The cells a run has to retrieve: those of the grid that the guard
    does not hold back and whose target is not on disk at the start. *)
Definition plan {World Err} (sys : System World Err) (options : Options)
    (now : datetime) (w : World) : list cell :=
  filter (λ c, negb (held_back now c)
               && negb (os_path_isfile sys (target_of (output_dir options) c) w))
    (grid (opt_start options) (opt_end options)).

(** The clock readings of a trace, in order. *)
Definition clock_readings (t : list Event) : list datetime :=
  omap (λ e, match e with
             | EvNow now => Some now
             | _ => None
             end) t.

(** An archive like [Sim.archive], except that it fails on one target. *)
Definition flaky_archive (now : datetime) (bad : string)
    : System Sim.world string := {|
  datetime_now w := (now, w);
  os_path_isfile p w := bool_decide (p ∈ Sim.files w);
  os_makedirs p exist_ok w :=
    if bool_decide (p ∈ Sim.dirs w) && negb exist_ok then inl "FileExistsError"
    else inr {| Sim.files := Sim.files w; Sim.dirs := {[p]} ∪ Sim.dirs w |};
  cdsapi_Client w := inr w;
  client_retrieve _ _ target w :=
    if String.eqb target bad then inl "HTTPError"
    else inr {| Sim.files := {[target]} ∪ Sim.files w; Sim.dirs := Sim.dirs w |};
|}.

(** ** The script with a standard output that can fail *)

(** Standard output: writing a line may raise (a closed pipe, a character
    the terminal cannot encode) or give the next world. *)
Record Console (World Err : Type) := {
  stdout_write : string → World → Err + World;
}.
Arguments stdout_write {World Err} _ _ _.

Module Piped.
Section Script.
Context {World Err : Type}.
Variable sys : System World Err.
Variable out : Console World Err.

Local Abbreviation M := (M World Err).

(** [print(line)]: an exception of the write is not caught. *)
Definition print (line : string) : M unit :=
  λ w, lift_call (EvPrint line) (stdout_write out line w) w.

Fixpoint months_loop (dataset variable output_directory : string)
    (year : scalar) (months : list Z) : M loop_exit :=
  match months with
  | [] => mret Exhausted
  | month :: rest =>
      let year := format_plain year in
      let month := format_02d month in
      let target := os_path_join output_directory (year +:+ "_" +:+ month +:+ ".nc") in
      now ← call_now sys;
      if String.eqb (year +:+ "_" +:+ month)
           (pretty (dt_year now) +:+ "_" +:+ format_02d (dt_month now))
      then
        print (msg_current target);;
        mret Broke
      else
        present ← call_isfile sys target;
        if (present : bool) then
          print (msg_exists target);;
          months_loop dataset variable output_directory (PStr year) rest
        else
          print (msg_downloading target);;
          call_retrieve sys dataset (build_request variable year month) target;;
          months_loop dataset variable output_directory (PStr year) rest
  end.

Fixpoint years_loop (dataset variable output_directory : string)
    (years : list Z) : M unit :=
  match years with
  | [] => mret tt
  | year :: rest =>
      months_loop dataset variable output_directory (PInt year) (range 1 13);;
      years_loop dataset variable output_directory rest
  end.

Definition main (options : Options) : M unit :=
  let dataset := opt_dataset options in
  let variable := opt_variable options in
  let output_directory := os_path_join (opt_output_directory options) variable in
  let start_year := opt_start options in
  let end_year := opt_end options in
  if negb (start_year <? end_year) then
    sys_exit "start year must be less than end year"
  else
    call_makedirs sys output_directory true;;
    call_Client sys;;
    years_loop dataset variable output_directory (range start_year end_year).

End Script.
End Piped.

(** The call recorded as [ev] raises [e] in world [w], the writes to
    standard output included. *)
Definition raises_piped {World Err} (sys : System World Err)
    (out : Console World Err) (ev : Event) (w : World) (e : Err) : Prop :=
  match ev with
  | EvPrint line => stdout_write out line w = inl e
  | _ => raises sys ev w e
  end.

(** A standard output that breaks on one line. *)
Definition broken_pipe (bad : string) : Console Sim.world string :=
  {| stdout_write line w :=
       if String.eqb line bad then inl "BrokenPipeError" else inr w |}.

(** ** Facts about formatting *)

Section Formatting.

Lemma append_cancel_l (a b1 b2 : string) : a +:+ b1 = a +:+ b2 → b1 = b2.
Proof. induction a as [|c a IH]; simpl; [done|]. intros [= ?]. auto. Qed.

Lemma length_append (a b : string) :
  String.length (a +:+ b) = (String.length a + String.length b)%nat.
Proof. induction a as [|c a IH]; simpl; [done|]. by rewrite IH. Qed.

Lemma append_assoc (a b c : string) : (a +:+ b) +:+ c = a +:+ b +:+ c.
Proof.
  induction a as [|x a IH]; [done|].
  change (String x ((a +:+ b) +:+ c) = String x (a +:+ b +:+ c)).
  by f_equal.
Qed.

Lemma append_cancel_r (a1 a2 b : string) : a1 +:+ b = a2 +:+ b → a1 = a2.
Proof.
  revert a2. induction a1 as [|c a1 IH]; intros [|c2 a2] Heq; simpl in *.
  - done.
  - apply (f_equal String.length) in Heq.
    rewrite !length_append in Heq. simpl in Heq. lia.
  - apply (f_equal String.length) in Heq.
    rewrite !length_append in Heq. simpl in Heq. lia.
  - injection Heq as -> Heq. f_equal. by apply IH.
Qed.

(** A character that is neither a digit nor the sign does not occur in a
    printed number. *)
Lemma pretty_N_go_has_char (c : ascii) (x : N) (s : string) :
  (∀ d, pretty_N_char d ≠ c) →
  has_char c s = false → has_char c (pretty_N_go x s) = false.
Proof.
  intros Hc. revert s. induction (N.lt_wf_0 x) as [x _ IH]; intros s Hs.
  destruct (N.eq_0_gt_0_cases x) as [->|Hpos].
  - by rewrite pretty_N_go_0.
  - rewrite pretty_N_go_step by done. apply IH.
    + by apply N.div_lt.
    + simpl. rewrite Hs, orb_false_r. apply bool_decide_eq_false, Hc.
Qed.

Lemma pretty_Z_has_char (c : ascii) (z : Z) :
  (∀ d, pretty_N_char d ≠ c) → c ≠ "-"%char →
  has_char c (pretty z) = false.
Proof.
  intros Hc Hdash.
  assert (∀ x : N, has_char c (pretty x) = false) as HN.
  { intros x. unfold pretty, pretty_N. case_decide; simpl.
    - rewrite orb_false_r. apply bool_decide_eq_false.
      intros <-. by apply (Hc 0%N).
    - by apply pretty_N_go_has_char. }
  destruct z as [|p|p]; unfold pretty, pretty_Z; simpl.
  - rewrite orb_false_r. apply bool_decide_eq_false.
    intros <-. by apply (Hc 0%N).
  - exact (HN (N.pos p)).
  - apply orb_false_intro; [|exact (HN (N.pos p))].
    apply bool_decide_eq_false. congruence.
Qed.

Lemma pretty_Z_no_underscore (z : Z) : has_char "_" (pretty z) = false.
Proof.
  apply pretty_Z_has_char; [|done].
  intros d. unfold pretty_N_char. by repeat case_match.
Qed.

Lemma pretty_Z_no_sep (z : Z) : has_char "/" (pretty z) = false.
Proof.
  apply pretty_Z_has_char; [|done].
  intros d. unfold pretty_N_char. by repeat case_match.
Qed.

(** The first digit of a positive number is not a zero. *)
Lemma pretty_N_go_lead (x : N) (s : string) :
  (0 < x)%N → ∃ c s', pretty_N_go x s = String c s' ∧ c ≠ "0"%char.
Proof.
  revert s. induction (N.lt_wf_0 x) as [x _ IH]; intros s Hpos.
  rewrite pretty_N_go_step by done.
  destruct (N.eq_0_gt_0_cases (x `div` 10)) as [Hq|Hq].
  - rewrite Hq, pretty_N_go_0. eexists _, _. split; [done|].
    assert (x < 10)%N by (by apply N.div_small_iff in Hq).
    rewrite N.mod_small by done.
    assert (x = 1 ∨ x = 2 ∨ x = 3 ∨ x = 4 ∨ x = 5 ∨ x = 6
          ∨ x = 7 ∨ x = 8 ∨ x = 9)%N as Hx by lia.
    repeat (destruct Hx as [->|Hx]; [done|]). by subst.
  - apply IH; [|done]. by apply N.div_lt.
Qed.

Lemma pretty_Z_lead_zero (z : Z) (s : string) :
  pretty z = String "0" s → s = EmptyString.
Proof.
  destruct z as [|p|p]; unfold pretty, pretty_Z.
  - by intros [= <-].
  - unfold pretty, pretty_positive, pretty, pretty_N.
    case_decide; [done|].
    destruct (pretty_N_go_lead (N.pos p) EmptyString eq_refl)
      as (c & s' & -> & Hc).
    by intros [= ? ?].
  - by intros [= ?].
Qed.

Lemma pretty_Z_nonempty (z : Z) : pretty z ≠ EmptyString.
Proof.
  destruct z as [|p|p]; unfold pretty, pretty_Z; [done| |done].
  unfold pretty, pretty_positive, pretty, pretty_N.
  case_decide; [done|].
  by destruct (pretty_N_go_lead (N.pos p) EmptyString eq_refl)
    as (c & s' & -> & Hc).
Qed.

Global Instance format_02d_inj : Inj (=) (=) format_02d.
Proof.
  intros a b. unfold format_02d.
  pose proof (pretty_Z_nonempty a) as Ha.
  pose proof (pretty_Z_nonempty b) as Hb.
  destruct (String.length (pretty a) <? 2)%nat eqn:La,
           (String.length (pretty b) <? 2)%nat eqn:Lb; simpl; intros Heq.
  - injection Heq as Heq. by apply (inj pretty).
  - symmetry in Heq. apply pretty_Z_lead_zero in Heq.
    destruct (pretty a); done.
  - apply pretty_Z_lead_zero in Heq. destruct (pretty b); done.
  - by apply (inj pretty).
Qed.

(** Two strings without underscore, each followed by an underscore and a
    rest: the parts are equal when the wholes are. *)
Lemma underscore_split (s1 s2 a b : string) :
  has_char "_" s1 = false → has_char "_" s2 = false →
  s1 +:+ "_" +:+ a = s2 +:+ "_" +:+ b → s1 = s2 ∧ a = b.
Proof.
  revert s2. induction s1 as [|c s1 IH]; intros [|c2 s2] H1 H2 Heq;
    simpl in *.
  - by injection Heq.
  - injection Heq as <- _.
    by rewrite bool_decide_eq_true_2 in H2.
  - injection Heq as -> _.
    by rewrite bool_decide_eq_true_2 in H1.
  - injection Heq as -> Heq.
    apply orb_false_elim in H1 as [_ H1].
    apply orb_false_elim in H2 as [_ H2].
    destruct (IH s2 H1 H2 Heq) as [-> ->]. done.
Qed.

Global Instance file_name_inj : Inj (=) (=) file_name.
Proof.
  intros [y1 m1] [y2 m2]. unfold file_name; simpl. intros Heq.
  apply underscore_split in Heq as [Hy Hm];
    [|apply pretty_Z_no_underscore..].
  apply (inj pretty) in Hy. apply append_cancel_r in Hm.
  apply (inj format_02d) in Hm. by subst.
Qed.

Lemma file_name_no_sep (c : cell) : startswith_sep (file_name c) = false.
Proof.
  unfold file_name.
  pose proof (pretty_Z_no_sep c.1) as Hs.
  pose proof (pretty_Z_nonempty c.1) as Hne.
  destruct (pretty c.1) as [|a s]; [done|]. simpl in *.
  apply orb_false_elim in Hs as [Ha _].
  apply bool_decide_eq_false in Ha.
  destruct a as [[] [] [] [] [] [] [] []]; done.
Qed.

(** [os.path.join] with a relative second argument only appends. *)
Lemma os_path_join_relative (a b : string) :
  startswith_sep b = false →
  os_path_join a b =
    a +:+ (if bool_decide (a = EmptyString) || endswith_sep a
           then b else "/" +:+ b).
Proof. intros Hb. unfold os_path_join. rewrite Hb. by case_match. Qed.

Lemma os_path_join_plain (a b : string) :
  plain_directory a → startswith_sep b = false →
  os_path_join a b = a +:+ "/" +:+ b.
Proof.
  intros [Hne Hend] Hb. rewrite os_path_join_relative by done.
  by rewrite Hend, bool_decide_eq_false_2.
Qed.

Global Instance target_of_inj (dir : string) : Inj (=) (=) (target_of dir).
Proof.
  intros c1 c2. unfold target_of.
  rewrite !os_path_join_relative by apply file_name_no_sep.
  intros Heq. apply append_cancel_l in Heq.
  case_match; [|apply append_cancel_l in Heq]; by apply (inj file_name).
Qed.

(** The test of the guard, [f"{year}_{month}" == f"{now.year}_{now.month:02d}"],
    holds exactly when the clock shows the cell. *)
Lemma guard_eqb (v : scalar) (y m : Z) (now : datetime) :
  year_is v y →
  String.eqb (format_plain v +:+ "_" +:+ format_02d m)
    (pretty (dt_year now) +:+ "_" +:+ format_02d (dt_month now))
  = bool_decide (is_now now (y, m)).
Proof.
  intros Hv.
  assert (format_plain v = pretty y) as -> by (by destruct Hv as [->| ->]).
  unfold is_now; simpl. case_bool_decide as Hnow.
  - destruct Hnow as [-> ->]. apply String.eqb_refl.
  - apply String.eqb_neq. intros Heq. apply Hnow.
    apply underscore_split in Heq as [Hy Hm];
      [|apply pretty_Z_no_underscore..].
    apply (inj pretty) in Hy. apply (inj format_02d) in Hm. done.
Qed.

End Formatting.

(** ** One pass through the loop body *)

Section Loop.
Context {World Err : Type}.
Variable sys : System World Err.
Variables dataset variable dir : string.

Local Abbreviation months := (months_loop sys dataset variable dir).
Local Abbreviation years := (years_loop sys dataset variable dir).

Lemma bind_run {A B} (m : M World Err A) (f : A → M World Err B) (w : World) :
  (m ≫= f) w =
    match m w with
    | (inl e, w1, t1) => (inl e, w1, t1)
    | (inr a, w1, t1) => ((f a w1).1.1, (f a w1).1.2, t1 ++ (f a w1).2)
    end.
Proof.
  unfold mbind, M_bind. destruct (m w) as [[[e|a] w1] t1]; [done|].
  by destruct (f a w1) as [[o w2] t2].
Qed.

Local Abbreviation seen := (pass_events dataset variable dir).

(** The loop body, case by case. *)
Lemma months_cons (v : scalar) (y m : Z) (rest : list Z) (w : World) :
  year_is v y →
  months v (m :: rest) w =
    let now := (datetime_now sys w).1 in
    let w1 := (datetime_now sys w).2 in
    let target := target_of dir (y, m) in
    if bool_decide (is_now now (y, m)) then
      (inr Broke, w1, seen now (y, m) SkipCurrent)
    else if os_path_isfile sys target w1 then
      let r := months (PStr (pretty y)) rest w1 in
      (outcome r, final r, seen now (y, m) SkipExists ++ trace r)
    else
      match client_retrieve sys dataset (request_of variable (y, m)) target w1 with
      | inl e => (inl (Propagated e), w1, seen now (y, m) Download)
      | inr w2 =>
          let r := months (PStr (pretty y)) rest w2 in
          (outcome r, final r, seen now (y, m) Download ++ trace r)
      end.
Proof.
  intros Hv.
  assert (format_plain v = pretty y) as Hfmt by (by destruct Hv as [->| ->]).
  cbn [months_loop]. rewrite bind_run. unfold call_now.
  destruct (datetime_now sys w) as [now w1] eqn:Hnow. cbn [fst snd].
  rewrite (guard_eqb v y m now Hv), Hfmt.
  unfold pass_events, step_events, target_of, file_name, request_of. cbn [fst snd st_cell st_now st_action].
  case_bool_decide as Hguard.
  - by rewrite bind_run.
  - rewrite bind_run. unfold call_isfile. cbn [fst snd].
    destruct (os_path_isfile sys _ w1) eqn:Hfile.
    + rewrite bind_run. unfold print. cbn [fst snd]. done.
    + rewrite bind_run. unfold print. cbn [fst snd].
      rewrite bind_run. unfold call_retrieve, lift_call.
      destruct (client_retrieve sys _ _ _ w1) as [e|w2]; done.
Qed.

(** Every year is a sequence of passes over its months. *)
Lemma months_shape (v : scalar) (y : Z) (ms : list Z) (w : World) :
  year_is v y →
  ∃ steps, trace (months v ms w) = steps_events dataset variable dir steps
           ∧ year_steps y ms steps.
Proof.
  revert v w. induction ms as [|m ms IH]; intros v w Hv.
  { exists []. split; [done|constructor]. }
  rewrite (months_cons v y m ms w Hv). cbn zeta.
  set (now := (datetime_now sys w).1). set (w1 := (datetime_now sys w).2).
  assert (year_is (PStr (pretty y)) y) as Hs by (by right).
  case_bool_decide as Hguard.
  - exists [{| st_cell := (y, m); st_now := now; st_action := SkipCurrent |}].
    split; [done|by apply year_current].
  - destruct (os_path_isfile sys _ w1).
    + destruct (IH (PStr (pretty y)) w1 Hs) as (steps & -> & Hsteps).
      exists ({| st_cell := (y, m); st_now := now; st_action := SkipExists |}
                :: steps).
      split; [done|by apply year_exists].
    + destruct (client_retrieve sys _ _ _ w1) as [e|w2].
      * exists [{| st_cell := (y, m); st_now := now; st_action := Download |}].
        split; [done|apply year_download; [done|constructor]].
      * destruct (IH (PStr (pretty y)) w2 Hs) as (steps & -> & Hsteps).
        exists ({| st_cell := (y, m); st_now := now; st_action := Download |}
                  :: steps).
        split; [done|by apply year_download].
Qed.

Lemma steps_events_app (s1 s2 : list step) :
  steps_events dataset variable dir (s1 ++ s2) =
    steps_events dataset variable dir s1 ++ steps_events dataset variable dir s2.
Proof. unfold steps_events. by rewrite fmap_app, concat_app. Qed.

(** A run is a sequence of years. *)
Lemma years_shape (ys : list Z) (w : World) :
  ∃ steps, trace (years ys w) = steps_events dataset variable dir steps
           ∧ run_steps ys steps.
Proof.
  revert w. induction ys as [|y ys IH]; intros w.
  { exists []. split; [done|constructor]. }
  cbn [years_loop]. rewrite bind_run.
  destruct (months_shape (PInt y) y (range 1 13) w) as (s1 & Ht & Hs1);
    [by left|].
  destruct (months (PInt y) (range 1 13) w) as [[[e|ex] w1] t1];
    cbn [fst snd] in *; subst t1.
  - exists (s1 ++ []). split; [by rewrite app_nil_r|].
    apply run_year; [done|constructor].
  - destruct (IH w1) as (s2 & -> & Hs2).
    exists (s1 ++ s2). split; [by rewrite steps_events_app|].
    by apply run_year.
Qed.

End Loop.

(** ** The shape of a run *)

Section Run.
Context {World Err : Type}.
Variable sys : System World Err.
Variable options : Options.

Local Abbreviation years :=
  (years_loop sys (opt_dataset options) (opt_variable options) (output_dir options)).
Local Abbreviation passes :=
  (steps_events (opt_dataset options) (opt_variable options) (output_dir options)).

Lemma main_exit (w : World) :
  ¬ opt_start options < opt_end options →
  main sys options w =
    (inl (SystemExit "start year must be less than end year"), w, []).
Proof.
  intros Hge. unfold main.
  by rewrite (proj2 (Z.ltb_ge _ _)) by lia.
Qed.

Lemma main_run (w : World) :
  opt_start options < opt_end options →
  main sys options w =
    match os_makedirs sys (output_dir options) true w with
    | inl e => (inl (Propagated e), w, [EvMakedirs (output_dir options) true])
    | inr w1 =>
        match cdsapi_Client sys w1 with
        | inl e =>
            (inl (Propagated e), w1,
             [EvMakedirs (output_dir options) true; EvClient])
        | inr w2 =>
            let r := years (range (opt_start options) (opt_end options)) w2 in
            (outcome r, final r,
             EvMakedirs (output_dir options) true :: EvClient :: trace r)
        end
    end.
Proof.
  intros Hlt. unfold main.
  rewrite (proj2 (Z.ltb_lt _ _)) by done. cbn [negb].
  rewrite bind_run. unfold call_makedirs, lift_call. fold (output_dir options).
  destruct (os_makedirs sys _ true w) as [e|w1]; [done|]. cbn [fst snd].
  rewrite bind_run. unfold call_Client, lift_call.
  destruct (cdsapi_Client sys w1) as [e|w2]; done.
Qed.

Lemma main_shape (w : World) :
  opt_start options < opt_end options →
  ∃ tail steps,
    trace (main sys options w) =
      EvMakedirs (output_dir options) true :: tail ++ passes steps
    ∧ tail `prefix_of` [EvClient]
    ∧ run_steps (range (opt_start options) (opt_end options)) steps.
Proof.
  intros Hlt. rewrite main_run by done.
  destruct (os_makedirs sys _ true w) as [e|w1].
  { exists [], []. split_and!; [done|apply prefix_nil|constructor]. }
  destruct (cdsapi_Client sys w1) as [e|w2].
  { exists [EvClient], []. split_and!; [done|done|constructor]. }
  destruct (years_shape sys (opt_dataset options) (opt_variable options)
              (output_dir options)
              (range (opt_start options) (opt_end options)) w2)
    as (steps & Ht & Hsteps).
  exists [EvClient], steps. cbn zeta. cbn [snd]. rewrite Ht.
  split_and!; done.
Qed.

End Run.

(** ** What sequences of passes look like *)

Section Passes.

Lemma year_steps_elem (y : Z) (ms : list Z) (steps : list step) (st : step) :
  year_steps y ms steps → st ∈ steps →
  (st_cell st).1 = y ∧ (st_cell st).2 ∈ ms.
Proof.
  induction 1 as [ms|m ms now Hnow|m ms now steps Hnow _ IH
                 |m ms now steps Hnow _ IH]; intros Hin.
  - by apply elem_of_nil in Hin.
  - apply list_elem_of_singleton in Hin as ->. simpl. split; [done|left].
  - apply elem_of_cons in Hin as [->|Hin].
    + simpl. split; [done|left].
    + destruct (IH Hin). split; [done|by right].
  - apply elem_of_cons in Hin as [->|Hin].
    + simpl. split; [done|left].
    + destruct (IH Hin). split; [done|by right].
Qed.

Lemma year_steps_prefix (y : Z) (ms : list Z) (steps : list step) :
  year_steps y ms steps → (st_cell <$> steps) `prefix_of` (pair y <$> ms).
Proof.
  induction 1; simpl.
  - apply prefix_nil.
  - apply prefix_cons, prefix_nil.
  - by apply prefix_cons.
  - by apply prefix_cons.
Qed.

Lemma prefix_sublist {A} (l k : list A) : l `prefix_of` k → l `sublist_of` k.
Proof. intros [r ->]. by apply sublist_inserts_r. Qed.

Lemma run_steps_elem (ys : list Z) (steps : list step) (st : step) :
  run_steps ys steps → st ∈ steps →
  (st_cell st).1 ∈ ys ∧ (st_cell st).2 ∈ range 1 13.
Proof.
  induction 1 as [ys|y ys s1 s2 Hs1 _ IH]; intros Hin.
  - by apply elem_of_nil in Hin.
  - apply elem_of_app in Hin as [Hin|Hin].
    + destruct (year_steps_elem _ _ _ _ Hs1 Hin) as [-> ?].
      split; [left|done].
    + destruct (IH Hin). split; [by right|done].
Qed.

Lemma run_steps_sublist (ys : list Z) (steps : list step) :
  run_steps ys steps →
  (st_cell <$> steps) `sublist_of` (y ← ys; pair y <$> range 1 13).
Proof.
  induction 1 as [ys|y ys s1 s2 Hs1 _ IH].
  - apply sublist_nil_l.
  - rewrite fmap_app. cbn [mbind list_bind].
    apply sublist_app; [|done].
    by apply prefix_sublist, year_steps_prefix.
Qed.

Lemma run_steps_grid (start_year end_year : Z) (steps : list step) :
  run_steps (range start_year end_year) steps →
  (st_cell <$> steps) `sublist_of` grid start_year end_year.
Proof. apply run_steps_sublist. Qed.

(** Cells of the grid, in numbers. *)
Lemma elem_of_range (a b k : Z) : k ∈ range a b ↔ a ≤ k < b.
Proof. unfold range. rewrite elem_of_seqZ. lia. Qed.

Lemma elem_of_grid (start_year end_year : Z) (c : cell) :
  c ∈ grid start_year end_year ↔
    start_year ≤ c.1 < end_year ∧ 1 ≤ c.2 ≤ 12.
Proof.
  unfold grid. rewrite list_elem_of_bind. split.
  - intros (y & Hc & Hy). apply list_elem_of_fmap in Hc as (m & -> & Hm).
    apply elem_of_range in Hy, Hm. simpl. lia.
  - intros [Hy Hm]. exists c.1. split.
    + apply list_elem_of_fmap. exists c.2. split; [by destruct c|].
      apply elem_of_range. lia.
    + by apply elem_of_range.
Qed.

(** The grid is in chronological order, and so is every part of it. *)
Lemma seqZ_sorted (m : Z) (n : nat) : StronglySorted Z.lt (seqZ m (Z.of_nat n)).
Proof.
  revert m. induction n as [|n IH]; intros m.
  - rewrite seqZ_nil by lia. constructor.
  - rewrite seqZ_cons by lia. constructor.
    + replace (Z.pred (Z.of_nat (S n))) with (Z.of_nat n) by lia. apply IH.
    + apply Forall_seqZ. lia.
Qed.

Lemma range_sorted (a b : Z) : StronglySorted Z.lt (range a b).
Proof.
  unfold range. destruct (decide (0 ≤ b - a)) as [Hle|Hgt].
  - rewrite <- (Z2Nat.id (b - a)) by done. apply seqZ_sorted.
  - rewrite seqZ_nil by lia. constructor.
Qed.

Lemma cells_sorted (ys ms : list Z) :
  StronglySorted Z.lt ys → StronglySorted Z.lt ms →
  StronglySorted cell_lt (y ← ys; pair y <$> ms).
Proof.
  intros Hys Hms. induction Hys as [|y ys Hys IH Hall]; [constructor|].
  cbn [mbind list_bind]. apply StronglySorted_app; split_and!.
  - intros c1 c2 Hc1 Hc2.
    apply list_elem_of_fmap in Hc1 as (m1 & -> & _).
    apply list_elem_of_bind in Hc2 as (y2 & Hc2 & Hy2).
    apply list_elem_of_fmap in Hc2 as (m2 & -> & _).
    left. simpl. by apply (proj1 (Forall_forall _ _) Hall).
  - clear IH. induction Hms as [|m ms Hms IHm Hm]; [constructor|].
    simpl. constructor; [done|].
    apply Forall_fmap. eapply Forall_impl; [exact Hm|].
    intros m' Hlt. right. simpl. done.
  - done.
Qed.

Lemma grid_sorted (start_year end_year : Z) :
  StronglySorted cell_lt (grid start_year end_year).
Proof. apply cells_sorted; apply range_sorted. Qed.

Lemma sublist_sorted {A} (R : relation A) (l k : list A) :
  l `sublist_of` k → StronglySorted R k → StronglySorted R l.
Proof.
  induction 1 as [|x l k Hsub IH|x l k Hsub IH]; intros Hk.
  - constructor.
  - apply StronglySorted_inv in Hk as [Hk Hx]. constructor; [by apply IH|].
    apply Forall_forall. intros z Hz.
    apply (proj1 (Forall_forall _ _) Hx). by eapply elem_of_sublist.
  - apply StronglySorted_inv in Hk as [Hk _]. by apply IH.
Qed.

(** The retrieval calls of a sequence of passes are those of its downloads. *)
Lemma retrievals_passes (ds var dir : string) (steps : list step) :
  retrievals (steps_events ds var dir steps) =
    fetch ds var dir <$> (st_cell <$> filter is_download steps).
Proof.
  unfold steps_events. induction steps as [|st steps IH]; [done|].
  cbn [fmap list_fmap concat]. unfold retrievals in *.
  rewrite omap_app, IH. destruct st as [c now []]; done.
Qed.

Lemma retrievals_run (dir : string) (tail passes : list Event) :
  tail `prefix_of` [EvClient] →
  retrievals (EvMakedirs dir true :: tail ++ passes) = retrievals passes.
Proof.
  intros [k Hk]. unfold retrievals. cbn [omap list_omap]. rewrite omap_app.
  destruct tail as [|e tail]; [done|].
  injection Hk as <- Hk. by destruct tail.
Qed.

Lemma paths_run (dir : string) (tail passes : list Event) :
  tail `prefix_of` [EvClient] →
  paths_used (EvMakedirs dir true :: tail ++ passes) = paths_used passes.
Proof.
  intros [k Hk]. unfold paths_used. cbn [omap list_omap]. rewrite omap_app.
  destruct tail as [|e tail]; [done|].
  injection Hk as <- Hk. by destruct tail.
Qed.

(** The paths a sequence of passes works on are targets of its cells. *)
Lemma paths_passes (ds var dir : string) (steps : list step) (p : string) :
  p ∈ paths_used (steps_events ds var dir steps) →
  ∃ st, st ∈ steps ∧ p = target_of dir (st_cell st).
Proof.
  unfold steps_events, paths_used.
  induction steps as [|st steps IH]; [by intros ?%elem_of_nil|].
  cbn [fmap list_fmap concat]. rewrite omap_app, elem_of_app.
  intros [Hp|Hp].
  - exists st. split; [left|].
    destruct st as [c now []]; cbn in Hp;
      repeat (apply elem_of_cons in Hp as [->|Hp]; [done|]);
      by apply elem_of_nil in Hp.
  - destruct (IH Hp) as (st' & Hin & ->). exists st'. split; [by right|done].
Qed.

(** Within a year, the pass that finds the clock on its own cell skips, and
    no other pass of that year is for the same or a later month. *)
Lemma year_steps_guard (y : Z) (ms : list Z) (steps : list step) (st : step) :
  StronglySorted Z.lt ms → year_steps y ms steps → st ∈ steps →
  (is_now (st_now st) (st_cell st) ↔ st_action st = SkipCurrent)
  ∧ (st_action st = SkipCurrent →
     ∀ st', st' ∈ steps → st' = st ∨ (st_cell st').2 < (st_cell st).2).
Proof.
  intros Hms Hsteps. revert Hms.
  induction Hsteps as [ms|m ms now Hnow|m ms now steps Hnow Hsteps IH
                      |m ms now steps Hnow Hsteps IH]; intros Hms Hin.
  - by apply elem_of_nil in Hin.
  - apply list_elem_of_singleton in Hin as ->. simpl. split; [done|].
    intros _ st' ->%list_elem_of_singleton. by left.
  - apply StronglySorted_inv in Hms as [Hms Hm].
    apply elem_of_cons in Hin as [->|Hin]; simpl.
    + split; [split; [done|discriminate]|discriminate].
    + destruct (IH Hms Hin) as [Hiff Hlast]. split; [done|].
      intros Hact st' [->|Hin']%elem_of_cons; [|by apply Hlast].
      right. simpl.
      destruct (year_steps_elem _ _ _ _ Hsteps Hin) as [_ Hmem].
      by apply (proj1 (Forall_forall _ _) Hm).
  - apply StronglySorted_inv in Hms as [Hms Hm].
    apply elem_of_cons in Hin as [->|Hin]; simpl.
    + split; [split; [done|discriminate]|discriminate].
    + destruct (IH Hms Hin) as [Hiff Hlast]. split; [done|].
      intros Hact st' [->|Hin']%elem_of_cons; [|by apply Hlast].
      right. simpl.
      destruct (year_steps_elem _ _ _ _ Hsteps Hin) as [_ Hmem].
      by apply (proj1 (Forall_forall _ _) Hm).
Qed.

Lemma run_steps_guard (ys : list Z) (steps : list step) (st : step) :
  NoDup ys → run_steps ys steps → st ∈ steps →
  (is_now (st_now st) (st_cell st) ↔ st_action st = SkipCurrent)
  ∧ (st_action st = SkipCurrent →
     ∀ st', st' ∈ steps → (st_cell st').1 = (st_cell st).1 →
       st' = st ∨ (st_cell st').2 < (st_cell st).2).
Proof.
  intros Hys Hsteps. revert Hys.
  induction Hsteps as [ys|y ys s1 s2 Hs1 Hs2 IH]; intros Hys Hin.
  - by apply elem_of_nil in Hin.
  - apply NoDup_cons in Hys as [Hy Hys].
    apply elem_of_app in Hin as [Hin|Hin].
    + destruct (year_steps_guard _ _ _ _ (range_sorted 1 13) Hs1 Hin)
        as [Hiff Hlast].
      split; [done|]. intros Hact st' [Hin'|Hin']%elem_of_app Hyear.
      * by apply Hlast.
      * destruct (year_steps_elem _ _ _ _ Hs1 Hin) as [Hst _].
        destruct (run_steps_elem _ _ _ Hs2 Hin') as [Hst' _].
        congruence.
    + destruct (IH Hys Hin) as [Hiff Hlast].
      split; [done|]. intros Hact st' [Hin'|Hin']%elem_of_app Hyear.
      * destruct (year_steps_elem _ _ _ _ Hs1 Hin') as [Hst' _].
        destruct (run_steps_elem _ _ _ Hs2 Hin) as [Hst _].
        congruence.
      * by apply Hlast.
Qed.

Lemma range_NoDup (a b : Z) : NoDup (range a b).
Proof. apply NoDup_seqZ. Qed.

End Passes.

(** ** The guards, the order and the requests *)

Section Guards.
Context {World Err : Type}.
Variable sys : System World Err.

(** C2: with [start >= end] the script stops at once with the message
    "start year must be less than end year" and a non-zero status; it has
    made no call at all (no directory, no client, no retrieval) and the
    world is as it was. *)
Theorem invalid_range_exits (options : Options) (w : World) :
  opt_end options ≤ opt_start options →
  main sys options w =
    (inl (SystemExit "start year must be less than end year"), w, [])
  ∧ exit_status (outcome (main sys options w)) = 1.
Proof.
  intros Hge. rewrite main_exit by lia. done.
Qed.

(** C3: a cell the loop reaches while the clock shows another month, and
    whose target is a regular file, costs a clock reading, the file test
    and the line "already exists"; no retrieval is made for it, and the
    loop goes on with the remaining months. *)
Theorem existing_file_skipped (dataset variable dir : string)
    (v : scalar) (y m : Z) (rest : list Z) (w : World) :
  year_is v y →
  ¬ is_now (datetime_now sys w).1 (y, m) →
  os_path_isfile sys (target_of dir (y, m)) (datetime_now sys w).2 = true →
  let next :=
    months_loop sys dataset variable dir (PStr (pretty y)) rest
      (datetime_now sys w).2 in
  months_loop sys dataset variable dir v (m :: rest) w =
    (outcome next, final next,
     [EvNow (datetime_now sys w).1;
      EvIsfile (target_of dir (y, m)) true;
      EvPrint (msg_exists (target_of dir (y, m)))] ++ trace next).
Proof.
  intros Hv Hnow Hfile. rewrite (months_cons sys _ _ _ v y m rest w Hv).
  cbn zeta. by rewrite bool_decide_eq_false_2, Hfile.
Qed.

(** C10: when the clock shows the cell itself, the pass ends the loop with
    the line "current month not yet complete" right after reading the
    clock: [os.path.isfile] is not even called, so the "already exists"
    branch cannot be taken, whether the target is on disk or not. *)
Theorem guard_before_file_check (dataset variable dir : string)
    (v : scalar) (y m : Z) (rest : list Z) (w : World) :
  year_is v y →
  is_now (datetime_now sys w).1 (y, m) →
  months_loop sys dataset variable dir v (m :: rest) w =
    (inr Broke, (datetime_now sys w).2,
     [EvNow (datetime_now sys w).1;
      EvPrint (msg_current (target_of dir (y, m)))])
  ∧ ∀ b, EvIsfile (target_of dir (y, m)) b
           ∉ (months_loop sys dataset variable dir v (m :: rest) w).2.
Proof.
  intros Hv Hnow. rewrite (months_cons sys _ _ _ v y m rest w Hv).
  cbn zeta. rewrite bool_decide_eq_true_2 by done.
  split; [done|]. intros b. cbn.
  intros Hin. repeat (apply elem_of_cons in Hin as [[=]|Hin]).
  by apply elem_of_nil in Hin.
Qed.

(** C1: in a run with [start < end], a pass that finds the clock on its own
    cell skips it, and the run makes no retrieval call for that month or a
    later month of that year. *)
Theorem current_month_guard (options : Options) (w : World) :
  opt_start options < opt_end options →
  ∃ tail steps,
    trace (main sys options w) =
      EvMakedirs (output_dir options) true :: tail ++
      steps_events (opt_dataset options) (opt_variable options)
        (output_dir options) steps
    ∧ tail `prefix_of` [EvClient]
    ∧ ∀ st, st ∈ steps → is_now (st_now st) (st_cell st) →
        st_action st = SkipCurrent
        ∧ ∀ m ds rq, (st_cell st).2 ≤ m →
            (ds, rq, target_of (output_dir options) ((st_cell st).1, m))
              ∉ retrievals (main sys options w).2.
Proof.
  intros Hlt. destruct (main_shape sys options w Hlt)
    as (tail & steps & Ht & Htail & Hsteps).
  exists tail, steps. split_and!; [done..|].
  intros st Hin Hnow.
  destruct (run_steps_guard _ _ st (range_NoDup _ _) Hsteps Hin)
    as [Hiff Hlast].
  apply Hiff in Hnow as Hact. split; [done|].
  intros m ds rq Hm. rewrite Ht, retrievals_run, retrievals_passes by done.
  intros Hfetch.
  apply list_elem_of_fmap in Hfetch as (c & [= _ _ Hc] & Hfetch).
  apply (inj (target_of _)) in Hc. subst c.
  apply list_elem_of_fmap in Hfetch as (st' & Hc & Hst').
  apply list_elem_of_filter in Hst' as [Hdl Hin'].
  destruct (Hlast Hact st' Hin') as [->|Hless].
  - by rewrite <- Hc.
  - unfold is_download in Hdl. by rewrite Hact in Hdl.
  - rewrite <- Hc in Hless. simpl in Hless. lia.
Qed.

Lemma month_two_digits (m : Z) :
  m ∈ range 1 13 → String.length (format_02d m) = 2%nat.
Proof.
  intros Hm%elem_of_range.
  assert (m = 1 ∨ m = 2 ∨ m = 3 ∨ m = 4 ∨ m = 5 ∨ m = 6 ∨ m = 7 ∨ m = 8
          ∨ m = 9 ∨ m = 10 ∨ m = 11 ∨ m = 12) as Hcases by lia.
  repeat (destruct Hcases as [->|Hcases]; [done|]). by subst.
Qed.

Lemma build_request_described (variable : string) (c : cell) :
  request_of variable c = described_request variable c.
Proof. done. Qed.

(** C6: every request handed to the archive client has the seven fields of
    the interface, in this order: the variable as a list of one, the year
    and the two-digit month of a cell of the grid as strings, the 31 days,
    the 24 hours, "netcdf" and "unarchived". *)
Theorem request_fields (options : Options) (w : World) :
  Forall (λ call : string * request * string,
    call.1.1 = opt_dataset options
    ∧ ∃ y m, opt_start options ≤ y < opt_end options ∧ 1 ≤ m ≤ 12
        ∧ String.length (format_02d m) = 2%nat
        ∧ call.1.2 = described_request (opt_variable options) (y, m)
        ∧ length (format_02d <$> seqZ 1 31) = 31%nat
        ∧ length ((λ h, format_02d h +:+ ":00") <$> seqZ 0 24) = 24%nat)
    (retrievals (trace (main sys options w))).
Proof.
  destruct (decide (opt_start options < opt_end options)) as [Hlt|Hge].
  2: { rewrite main_exit by done. constructor. }
  destruct (main_shape sys options w Hlt)
    as (tail & steps & -> & Htail & Hsteps).
  rewrite retrievals_run, retrievals_passes by done.
  apply Forall_forall. intros call Hcall.
  apply list_elem_of_fmap in Hcall as (c & -> & Hc).
  apply list_elem_of_fmap in Hc as (st & -> & Hst).
  apply list_elem_of_filter in Hst as [_ Hst].
  destruct (run_steps_elem _ _ _ Hsteps Hst) as [Hy Hm].
  split; [done|]. exists (st_cell st).1, (st_cell st).2.
  pose proof (month_two_digits _ Hm).
  apply elem_of_range in Hy, Hm.
  split_and!; [lia..|done| |done|done].
  cbn. rewrite build_request_described. by destruct (st_cell st).
Qed.

(** C7: the passes of a run go through cells of the grid in strictly
    ascending order, years first and months within the year; the retrieval
    calls are those of the downloading passes, so they ascend as well. *)
Theorem chronological_order (options : Options) (w : World) :
  StronglySorted cell_lt (grid (opt_start options) (opt_end options))
  ∧ ∃ pre steps,
      trace (main sys options w) =
        pre ++ steps_events (opt_dataset options) (opt_variable options)
                 (output_dir options) steps
      ∧ pre `prefix_of` [EvMakedirs (output_dir options) true; EvClient]
      ∧ (st_cell <$> steps)
          `sublist_of` grid (opt_start options) (opt_end options)
      ∧ StronglySorted cell_lt (st_cell <$> steps)
      ∧ retrievals (trace (main sys options w)) =
          fetch (opt_dataset options) (opt_variable options)
            (output_dir options) <$> (st_cell <$> filter is_download steps)
      ∧ StronglySorted cell_lt (st_cell <$> filter is_download steps).
Proof.
  split; [apply grid_sorted|].
  destruct (decide (opt_start options < opt_end options)) as [Hlt|Hge].
  2: { exists [], []. rewrite main_exit by done.
       split_and!;
         [done|apply prefix_nil|apply sublist_nil_l|constructor|done|constructor]. }
  destruct (main_shape sys options w Hlt)
    as (tail & steps & Ht & Htail & Hsteps).
  pose proof (run_steps_grid _ _ _ Hsteps) as Hsub.
  exists (EvMakedirs (output_dir options) true :: tail), steps.
  split_and!.
  - done.
  - by apply prefix_cons.
  - done.
  - eapply sublist_sorted; [exact Hsub|apply grid_sorted].
  - by rewrite Ht, retrievals_run, retrievals_passes.
  - eapply sublist_sorted; [|apply grid_sorted].
    etrans; [|exact Hsub]. apply fmap_sublist, sublist_filter.
Qed.

End Guards.

(** ** Running the script again *)

Section Again.
Context {World Err : Type}.
Variable sys : System World Err.
Variables dataset variable dir : string.
Variable now : datetime.
Hypothesis Hkeeps : persistent sys.
Hypothesis Hclock : steady_clock sys now.

Local Abbreviation months := (months_loop sys dataset variable dir).
Local Abbreviation years := (years_loop sys dataset variable dir).
Local Abbreviation isfile := (os_path_isfile sys).

Lemma covered_mono (w w' : World) (y : Z) (ms : list Z) :
  (∀ p, isfile p w = true → isfile p w' = true) →
  covered sys dir now w y ms → covered sys dir now w' y ms.
Proof.
  intros Hmono. induction ms as [|m ms IH]; [done|].
  intros [Hnow|[Hfile Hrest]]; [by left|right]. split; [by apply Hmono|auto].
Qed.

(** A year that ran to its end (or to the guard) left its months covered,
    and removed no file. *)
Lemma months_cover (v : scalar) (y : Z) (ms : list Z) (w w' : World)
    (ex : loop_exit) (t : list Event) :
  year_is v y →
  months v ms w = (inr ex, w', t) →
  covered sys dir now w' y ms ∧ ∀ p, isfile p w = true → isfile p w' = true.
Proof.
  revert v w w' ex t. induction ms as [|m ms IH]; intros v w w' ex t Hv.
  { intros [= _ <- _]. done. }
  rewrite (months_cons sys _ _ _ v y m ms w Hv). cbn zeta.
  rewrite Hclock.
  assert (year_is (PStr (pretty y)) y) as Hs by (by right).
  pose proof (now_keeps sys Hkeeps w) as Hnow.
  case_bool_decide as Hguard.
  - intros [= _ <- _]. split; [by left|]. intros p. by rewrite Hnow.
  - destruct (isfile _ (datetime_now sys w).2) eqn:Hfile.
    + destruct (months _ ms _) as [[o w2] t2] eqn:Hrest. cbn [fst snd].
      intros [= -> -> _].
      destruct (IH _ _ _ _ _ Hs Hrest) as [Hcov Hmono].
      split; [right; split; [by apply Hmono|done]|].
      intros p Hp. apply Hmono. by rewrite Hnow.
    + destruct (client_retrieve sys _ _ _ _) as [e|w2] eqn:Hcall; [done|].
      destruct (months _ ms w2) as [[o w3] t3] eqn:Hrest. cbn [fst snd].
      intros [= -> -> _].
      destruct (IH _ _ _ _ _ Hs Hrest) as [Hcov Hmono].
      split.
      * right. split; [|done].
        apply Hmono. by eapply retrieve_writes.
      * intros p Hp. apply Hmono.
        eapply retrieve_keeps; [done..|]. by rewrite Hnow.
Qed.

(** Months that are covered are passed without a retrieval, and without a
    change to the files. *)
Lemma months_idle (v : scalar) (y : Z) (ms : list Z) (w : World) :
  year_is v y →
  covered sys dir now w y ms →
  ∃ ex, outcome (months v ms w) = inr ex
        ∧ retrievals (trace (months v ms w)) = []
        ∧ ∀ p, isfile p (final (months v ms w)) = isfile p w.
Proof.
  revert v w. induction ms as [|m ms IH]; intros v w Hv Hcov.
  { by exists Exhausted. }
  rewrite (months_cons sys _ _ _ v y m ms w Hv). cbn zeta.
  rewrite Hclock.
  assert (year_is (PStr (pretty y)) y) as Hs by (by right).
  pose proof (now_keeps sys Hkeeps w) as Hnow.
  case_bool_decide as Hguard.
  - exists Broke. split_and!; [done|done|]. intros p. apply Hnow.
  - destruct Hcov as [?|[Hfile Hcov]]; [done|].
    rewrite Hnow, Hfile.
    destruct (IH (PStr (pretty y)) (datetime_now sys w).2 Hs)
      as (ex & Hex & Hnone & Hsame).
    { eapply covered_mono; [|done]. intros p. by rewrite Hnow. }
    exists ex. cbn [fst snd]. split_and!; [done|done|].
    intros p. by rewrite Hsame.
Qed.

Lemma years_cover (ys : list Z) (w w' : World) (t : list Event) :
  years ys w = (inr tt, w', t) →
  Forall (λ y, covered sys dir now w' y (range 1 13)) ys
  ∧ ∀ p, isfile p w = true → isfile p w' = true.
Proof.
  revert w w' t. induction ys as [|y ys IH]; intros w w' t.
  { intros [= <- _]. done. }
  cbn [years_loop]. rewrite bind_run.
  destruct (months _ _ w) as [[[e|ex] w1] t1] eqn:Hyear; [done|].
  destruct (years ys w1) as [[o w2] t2] eqn:Hrest. cbn [fst snd].
  intros [= -> -> _].
  destruct (months_cover (PInt y) y _ _ _ _ _ (or_introl eq_refl) Hyear)
    as [Hcov Hmono1].
  destruct (IH _ _ _ Hrest) as [Hall Hmono2].
  split; [|by auto].
  constructor; [|done]. by eapply covered_mono.
Qed.

Lemma years_idle (ys : list Z) (w : World) :
  Forall (λ y, covered sys dir now w y (range 1 13)) ys →
  retrievals (trace (years ys w)) = [].
Proof.
  revert w. induction ys as [|y ys IH]; intros w Hall; [done|].
  apply Forall_cons in Hall as [Hy Hall].
  cbn [years_loop]. rewrite bind_run.
  destruct (months_idle (PInt y) y _ w (or_introl eq_refl) Hy)
    as (ex & Hex & Hnone & Hsame).
  destruct (months _ _ w) as [[o w1] t1]. cbn [fst snd] in *. subst o.
  cbn [fst snd]. unfold retrievals in *. rewrite omap_app, Hnone.
  apply IH. eapply Forall_impl; [exact Hall|].
  intros y'. apply covered_mono. intros p. by rewrite Hsame.
Qed.

End Again.

Section Idempotence.
Context {World Err : Type}.
Variable sys : System World Err.

(** C4: when files stay where they are and every retrieval that returns
    has written its target, and the clock shows the same month throughout,
    a run that came to its end is followed by a run, with the same
    arguments, that makes no retrieval call. *)
Theorem second_run_idle (options : Options) (now : datetime)
    (w w1 : World) (t1 : list Event) :
  persistent sys →
  steady_clock sys now →
  main sys options w = (inr tt, w1, t1) →
  retrievals (trace (main sys options w1)) = [].
Proof.
  intros Hkeeps Hclock Hfirst.
  destruct (decide (opt_start options < opt_end options)) as [Hlt|Hge].
  2: { by rewrite main_exit. }
  rewrite main_run in Hfirst by done.
  destruct (os_makedirs sys _ true w) as [e|wa] eqn:Hmk; [done|].
  destruct (cdsapi_Client sys wa) as [e|wb] eqn:Hcl; [done|].
  cbn zeta in Hfirst.
  destruct (years_loop sys _ _ _ _ wb) as [[o wc] tc] eqn:Hyears.
  cbn [fst snd] in Hfirst. injection Hfirst as -> -> _.
  destruct (years_cover sys _ _ _ now Hkeeps Hclock _ _ _ _ Hyears)
    as [Hcov _].
  rewrite main_run by done.
  destruct (os_makedirs sys _ true w1) as [e|wa'] eqn:Hmk'; [done|].
  destruct (cdsapi_Client sys wa') as [e|wb'] eqn:Hcl'; [done|].
  cbn zeta. cbn [snd]. unfold retrievals. cbn [omap list_omap].
  apply (years_idle sys _ _ _ now Hkeeps Hclock).
  eapply Forall_impl; [exact Hcov|].
  intros y. apply covered_mono. intros p Hp.
  erewrite client_keeps by done. by erewrite makedirs_keeps.
Qed.

End Idempotence.

(** ** Runs against an archive that answers every call *)

Section Plan.
Context {World Err : Type}.
Variable sys : System World Err.
Variables dataset variable dir : string.
Hypothesis Hkeeps : persistent sys.
Hypothesis Hgood : reliable sys.

Local Abbreviation months := (months_loop sys dataset variable dir).
Local Abbreviation years := (years_loop sys dataset variable dir).
Local Abbreviation isfile := (os_path_isfile sys).
Local Abbreviation target := (target_of dir).

(** A year the clock never shows, with none of its targets on disk: every
    month is retrieved, in order, and no other file changes. *)
Lemma months_full (v : scalar) (y : Z) (ms : list Z) (w : World) :
  year_is v y →
  (∀ w', dt_year (datetime_now sys w').1 ≠ y) →
  NoDup ms →
  (∀ m, m ∈ ms → isfile (target (y, m)) w = false) →
  outcome (months v ms w) = inr Exhausted
  ∧ retrievals (trace (months v ms w)) =
      fetch dataset variable dir <$> (pair y <$> ms)
  ∧ ∀ p, (∀ m, m ∈ ms → p ≠ target (y, m)) →
         isfile p (final (months v ms w)) = isfile p w.
Proof.
  intros Hv Hyear. revert v w Hv.
  induction ms as [|m ms IH]; intros v w Hv Hnd Habsent; [done|].
  apply NoDup_cons in Hnd as [Hm Hnd].
  rewrite (months_cons sys _ _ _ v y m ms w Hv). cbn zeta.
  assert (year_is (PStr (pretty y)) y) as Hs by (by right).
  pose proof (now_keeps sys Hkeeps w) as Hnow.
  rewrite bool_decide_eq_false_2
    by (intros [Hy _]; by apply (Hyear w)).
  rewrite Hnow, (Habsent m) by left.
  destruct (retrieve_returns sys Hgood dataset
              (request_of variable (y, m)) (target (y, m))
              (datetime_now sys w).2) as [w2 Hcall].
  rewrite Hcall.
  assert (∀ p, p ≠ target (y, m) → isfile p w2 = isfile p w) as Hframe.
  { intros p Hp. erewrite retrieve_only by done. apply Hnow. }
  destruct (IH (PStr (pretty y)) w2 Hs Hnd) as (Hex & Hcalls & Hsame).
  { intros m' Hm'. rewrite Hframe; [by apply Habsent; right|].
    intros Heq%(inj target). congruence. }
  cbn [fst snd]. split_and!.
  - done.
  - unfold retrievals in *. rewrite omap_app, Hcalls. done.
  - intros p Hp. rewrite Hsame by (intros; apply Hp; by right).
    apply Hframe, Hp. left.
Qed.

Variable now : datetime.
Hypothesis Hclock : steady_clock sys now.

(** Any year, under a clock that stays on one month: the loop returns; it
    changes no file but targets of its own months; in a year other than
    the current one every month is tested, and retrieved when absent; in
    the current year the guard fires. *)
Lemma months_any (v : scalar) (y : Z) (ms : list Z) (w : World) :
  year_is v y →
  NoDup ms →
  (∃ ex, outcome (months v ms w) = inr ex)
  ∧ (∀ p, (∀ m, m ∈ ms → p ≠ target (y, m)) →
          isfile p (final (months v ms w)) = isfile p w)
  ∧ (y ≠ dt_year now → ∀ m, m ∈ ms →
       EvIsfile (target (y, m)) (isfile (target (y, m)) w)
         ∈ trace (months v ms w)
       ∧ (isfile (target (y, m)) w = false →
          EvRetrieve dataset (request_of variable (y, m)) (target (y, m))
            ∈ trace (months v ms w)))
  ∧ (y = dt_year now → dt_month now ∈ ms →
       EvPrint (msg_current (target (y, dt_month now))) ∈ trace (months v ms w)).
Proof.
  revert v w. induction ms as [|m ms IH]; intros v w Hv Hnd.
  { split_and!; [by exists Exhausted|done|..].
    - by intros _ m ?%elem_of_nil.
    - by intros _ ?%elem_of_nil. }
  apply NoDup_cons in Hnd as [Hm Hnd].
  rewrite (months_cons sys _ _ _ v y m ms w Hv). cbn zeta.
  rewrite Hclock.
  assert (year_is (PStr (pretty y)) y) as Hs by (by right).
  pose proof (now_keeps sys Hkeeps w) as Hnow.
  case_bool_decide as Hguard.
  { destruct Hguard as [Hy Hmonth]; simpl in Hy, Hmonth.
    split_and!; [by exists Broke|intros; apply Hnow|congruence|].
    intros _ _. cbn. rewrite Hmonth. right. left. }
  assert (∀ m', m' ∈ ms → target (y, m') ≠ target (y, m)) as Hother.
  { intros m' Hm' Heq%(inj target). congruence. }
  destruct (isfile (target (y, m)) (datetime_now sys w).2) eqn:Hfile.
  - destruct (IH (PStr (pretty y)) (datetime_now sys w).2 Hs Hnd)
      as ([ex Hex] & Hsame & Hyear & Hcur).
    cbn [fst snd]. split_and!.
    + by exists ex.
    + intros p Hp. rewrite Hsame by (intros; apply Hp; by right). apply Hnow.
    + intros Hy m' [->|Hm']%elem_of_cons.
      * rewrite <- Hnow, Hfile. split; [|done].
        apply elem_of_app. left. cbn. right. left.
      * destruct (Hyear Hy m' Hm') as [Htest Hget]. rewrite Hnow in Htest, Hget.
        split; [by apply elem_of_app; right|].
        intros Habs. apply elem_of_app. right. by apply Hget.
    + intros Hy [Heq|Hin]%elem_of_cons.
      * destruct Hguard. by split.
      * apply elem_of_app. right. by apply Hcur.
  - destruct (retrieve_returns sys Hgood dataset
                (request_of variable (y, m)) (target (y, m))
                (datetime_now sys w).2) as [w2 Hcall].
    rewrite Hcall.
    assert (∀ p, p ≠ target (y, m) → isfile p w2 = isfile p w) as Hframe.
    { intros p Hp. erewrite retrieve_only by done. apply Hnow. }
    destruct (IH (PStr (pretty y)) w2 Hs Hnd)
      as ([ex Hex] & Hsame & Hyear & Hcur).
    cbn [fst snd]. split_and!.
    + by exists ex.
    + intros p Hp. rewrite Hsame by (intros; apply Hp; by right).
      apply Hframe, Hp. left.
    + intros Hy m' [->|Hm']%elem_of_cons.
      * rewrite <- Hnow, Hfile. split.
        -- apply elem_of_app. left. cbn. right. left.
        -- intros _. apply elem_of_app. left. cbn. do 3 right. left.
      * destruct (Hyear Hy m' Hm') as [Htest Hget].
        rewrite (Hframe _ (Hother m' Hm')) in Htest, Hget.
        split; [by apply elem_of_app; right|].
        intros Habs. apply elem_of_app. right. by apply Hget.
    + intros Hy [Heq|Hin]%elem_of_cons.
      * destruct Hguard. by split.
      * apply elem_of_app. right. by apply Hcur.
Qed.

Lemma years_any (ys : list Z) (w : World) :
  NoDup ys →
  outcome (years ys w) = inr tt
  ∧ (∀ p, (∀ y m, y ∈ ys → m ∈ range 1 13 → p ≠ target (y, m)) →
          isfile p (final (years ys w)) = isfile p w)
  ∧ (∀ y m, y ∈ ys → y ≠ dt_year now → m ∈ range 1 13 →
       EvIsfile (target (y, m)) (isfile (target (y, m)) w) ∈ trace (years ys w)
       ∧ (isfile (target (y, m)) w = false →
          EvRetrieve dataset (request_of variable (y, m)) (target (y, m))
            ∈ trace (years ys w)))
  ∧ (dt_year now ∈ ys → dt_month now ∈ range 1 13 →
       EvPrint (msg_current (target (dt_year now, dt_month now)))
         ∈ trace (years ys w)).
Proof.
  revert w. induction ys as [|y ys IH]; intros w Hnd.
  { split_and!; [done|done|..].
    - by intros y m ?%elem_of_nil.
    - by intros ?%elem_of_nil. }
  apply NoDup_cons in Hnd as [Hy Hnd].
  cbn [years_loop]. rewrite bind_run.
  destruct (months_any (PInt y) y (range 1 13) w (or_introl eq_refl)
              (range_NoDup 1 13)) as ([ex Hex] & Hsame1 & Hyear1 & Hcur1).
  destruct (months (PInt y) (range 1 13) w) as [[o w1] t1].
  cbn [fst snd] in *. subst o.
  destruct (IH w1 Hnd) as (Hok & Hsame2 & Hyear2 & Hcur2).
  cbn [fst snd]. split_and!.
  - done.
  - intros p Hp. rewrite Hsame2 by (intros; apply Hp; [by right|done]).
    apply Hsame1. intros m Hm. apply Hp; [left|done].
  - intros y' m [->|Hin]%elem_of_cons Hne Hm.
    + destruct (Hyear1 Hne m Hm) as [Htest Hget].
      split; [by apply elem_of_app; left|].
      intros Habs. apply elem_of_app. left. by apply Hget.
    + destruct (Hyear2 y' m Hin Hne Hm) as [Htest Hget].
      assert (isfile (target (y', m)) w1 = isfile (target (y', m)) w) as Heq.
      { apply Hsame1. intros m' _ Heq%(inj target). congruence. }
      rewrite Heq in Htest, Hget.
      split; [by apply elem_of_app; right|].
      intros Habs. apply elem_of_app. right. by apply Hget.
  - intros [Heq|Hin]%elem_of_cons Hm.
    + apply elem_of_app. left. rewrite Heq. by apply Hcur1.
    + apply elem_of_app. right. by apply Hcur2.
Qed.

End Plan.

(** ** Where the files go *)

Section Layout.

Lemma endswith_sep_append (a b : string) :
  b ≠ EmptyString → endswith_sep (a +:+ b) = endswith_sep b.
Proof.
  intros Hb. induction a as [|c a IH]; [done|].
  change (String c a +:+ b) with (String c (a +:+ b)).
  cbn [endswith_sep]. destruct (a +:+ b) as [|c' s] eqn:Heq; [|done].
  destruct a; [|done]. by destruct Hb.
Qed.

Lemma output_dir_plain (options : Options) :
  plain_directory (opt_output_directory options) →
  plain_name (opt_variable options) →
  output_dir options = layout_dir options ∧ plain_directory (layout_dir options).
Proof.
  intros Hdir (Hne & Hstart & Hend). unfold output_dir, layout_dir.
  rewrite os_path_join_plain by done. split; [done|]. split.
  - destruct Hdir as [Hd _]. by destruct (opt_output_directory options).
  - rewrite !endswith_sep_append; [done..|].
    by destruct (opt_variable options).
Qed.

Lemma target_plain (options : Options) (c : cell) :
  plain_directory (opt_output_directory options) →
  plain_name (opt_variable options) →
  target_of (output_dir options) c = layout_path options c.
Proof.
  intros Hdir Hvar.
  destruct (output_dir_plain options Hdir Hvar) as [-> Hplain].
  unfold target_of. rewrite os_path_join_plain; [|done|apply file_name_no_sep].
  unfold layout_dir, layout_path, file_name. by rewrite !append_assoc.
Qed.

End Layout.

Section Scenarios.
Context {World Err : Type}.
Variable sys : System World Err.

(** C8, as amended: in a run with [start < end] the first call creates the
    directory [os.path.join(output_directory, variable)], existing or not,
    and every path tested or handed to the archive client is
    [os.path.join] of that directory and [<year>_<month>.nc] for a cell of
    the grid, the year in plain decimal and the month with two digits.
    When the output directory is not empty and does not end with a slash,
    and the variable is not empty and neither starts nor ends with a slash,
    these are [<output_directory>/<variable>] and
    [<output_directory>/<variable>/<year>_<month>.nc]. *)
Theorem target_layout (options : Options) (w : World) :
  opt_start options < opt_end options →
  (∃ rest,
     trace (main sys options w) = EvMakedirs (output_dir options) true :: rest)
  ∧ Forall (λ p, ∃ c, c ∈ grid (opt_start options) (opt_end options)
                      ∧ p = os_path_join
                              (os_path_join (opt_output_directory options)
                                 (opt_variable options))
                              (pretty c.1 +:+ "_" +:+ format_02d c.2 +:+ ".nc"))
      (paths_used (trace (main sys options w)))
  ∧ (plain_directory (opt_output_directory options) →
     plain_name (opt_variable options) →
     output_dir options
       = opt_output_directory options +:+ "/" +:+ opt_variable options
     ∧ Forall (λ p, ∃ c, c ∈ grid (opt_start options) (opt_end options)
                         ∧ p = opt_output_directory options +:+ "/" +:+
                               opt_variable options +:+ "/" +:+
                               pretty c.1 +:+ "_" +:+ format_02d c.2 +:+ ".nc")
         (paths_used (trace (main sys options w)))).
Proof.
  intros Hlt.
  destruct (main_shape sys options w Hlt)
    as (tail & steps & Ht & Htail & Hsteps).
  assert (Forall (λ p, ∃ c, c ∈ grid (opt_start options) (opt_end options)
                            ∧ p = target_of (output_dir options) c)
            (paths_used (trace (main sys options w)))) as Hpaths.
  { rewrite Ht, paths_run by done. apply Forall_forall. intros p Hp.
    apply paths_passes in Hp as (st & Hst & ->).
    exists (st_cell st). split; [|done].
    eapply elem_of_sublist; [|by apply run_steps_grid].
    by apply list_elem_of_fmap_2. }
  split_and!.
  - by eexists.
  - exact Hpaths.
  - intros Hdir Hvar. split; [by apply output_dir_plain|].
    eapply Forall_impl; [exact Hpaths|].
    intros p (c & Hc & ->). exists c. split; [done|].
    by apply target_plain.
Qed.


(** C9: with the clock on one month of a year in the range, and [end]
    beyond the year after it, the guard fires once, in the current year;
    every month of every later year of the range is still tested, and
    retrieved when its file is absent, although it lies in the future. *)
Theorem later_years_processed (options : Options) (now : datetime) (w : World) :
  persistent sys → reliable sys → steady_clock sys now →
  opt_start options ≤ dt_year now →
  dt_year now + 1 < opt_end options →
  1 ≤ dt_month now ≤ 12 →
  outcome (main sys options w) = inr tt
  ∧ EvPrint (msg_current
               (target_of (output_dir options) (dt_year now, dt_month now)))
      ∈ trace (main sys options w)
  ∧ ∀ y m, dt_year now < y < opt_end options → 1 ≤ m ≤ 12 →
      EvIsfile (target_of (output_dir options) (y, m))
        (os_path_isfile sys (target_of (output_dir options) (y, m)) w)
        ∈ trace (main sys options w)
      ∧ (os_path_isfile sys (target_of (output_dir options) (y, m)) w = false →
         EvRetrieve (opt_dataset options)
           (request_of (opt_variable options) (y, m))
           (target_of (output_dir options) (y, m))
           ∈ trace (main sys options w)).
Proof.
  intros Hkeeps Hgood Hclock Hstart Hend Hmonth.
  assert (opt_start options < opt_end options) as Hlt by lia.
  rewrite main_run by done.
  destruct (makedirs_returns sys Hgood (output_dir options) w) as [w1 Hmk].
  destruct (client_returns sys Hgood w1) as [w2 Hcl].
  rewrite Hmk, Hcl. cbn zeta.
  destruct (years_any sys (opt_dataset options) (opt_variable options)
              (output_dir options) Hkeeps Hgood now Hclock
              (range (opt_start options) (opt_end options)) w2
              (range_NoDup _ _)) as (Hok & _ & Hyears & Hcur).
  assert (∀ p, os_path_isfile sys p w2 = os_path_isfile sys p w) as Hsame.
  { intros p. by erewrite client_keeps, makedirs_keeps. }
  destruct (years_loop sys _ _ _ _ w2) as [[o w3] t3].
  cbn [fst snd] in *. split_and!.
  - done.
  - do 2 right. apply Hcur; apply elem_of_range; lia.
  - intros y m Hy Hm.
    destruct (Hyears y m) as [Htest Hget];
      [apply elem_of_range; lia|lia|apply elem_of_range; lia|].
    rewrite Hsame in Htest, Hget.
    split; [by do 2 right|]. intros Habs. do 2 right. by apply Hget.
Qed.

End Scenarios.

(** ** The simulated world behaves *)

Section Simulated.
Variable now : datetime.

Lemma archive_persistent : persistent (Sim.archive now).
Proof.
  split; simpl.
  - done.
  - intros d ok w w' p. case_match; [done|]. by intros [= <-].
  - by intros w w' p [= <-].
  - intros _ _ t w w' p [= <-]. simpl.
    intros Hp%bool_decide_eq_true. apply bool_decide_eq_true. set_solver.
  - intros _ _ t w w' [= <-]. simpl. apply bool_decide_eq_true. set_solver.
Qed.

Lemma archive_reliable : reliable (Sim.archive now).
Proof.
  split; simpl.
  - intros d w. rewrite andb_false_r. by eexists.
  - intros w. by eexists.
  - intros _ _ t w. by eexists.
  - intros _ _ t w w' p [= <-] Hp. simpl.
    apply bool_decide_ext. rewrite elem_of_union, elem_of_singleton.
    split; [by intros [?|?]|by right].
Qed.

Lemma archive_steady : steady_clock (Sim.archive now) now.
Proof. by intros w. Qed.

End Simulated.

(** ** The statements at work *)

Example format_02d_samples :
  format_02d <$> [1; 9; 10; 12] = ["01"; "09"; "10"; "12"].
Proof. reflexivity. Qed.

Example os_path_join_samples :
  os_path_join "/data/db/cds" "total_precipitation"
    = "/data/db/cds/total_precipitation"
  ∧ os_path_join "/data/db/cds/" "total_precipitation"
    = "/data/db/cds/total_precipitation"
  ∧ os_path_join "/data/db/cds" "/srv/era5" = "/srv/era5".
Proof. by vm_compute. Qed.

(** With [2019_06.nc] on disk, the year 2019 takes eleven retrievals. *)
Example june_on_disk :
  length (retrievals (trace
    (main (Sim.archive (Sim.month 2024 6)) (Sim.era5 2019 2020)
       (Sim.disk ["/data/db/cds/total_precipitation/2019_06.nc"]))))
  = 11%nat.
Proof. vm_compute. reflexivity. Qed.

(** In March 2020, a run over 2020 and 2021 retrieves January and February
    of 2020, stops that year at March, and then retrieves all of 2021. *)
Example march_2020 :
  snd <$> retrievals (trace
    (main (Sim.archive (Sim.month 2020 3)) (Sim.era5 2020 2022) (Sim.disk [])))
  = (λ name, "/data/db/cds/total_precipitation/" +:+ name +:+ ".nc") <$>
      [ "2020_01"; "2020_02";
        "2021_01"; "2021_02"; "2021_03"; "2021_04"; "2021_05"; "2021_06";
        "2021_07"; "2021_08"; "2021_09"; "2021_10"; "2021_11"; "2021_12" ].
Proof. vm_compute. reflexivity. Qed.

Lemma invalid_range_exits_witness :
  main (Sim.archive (Sim.month 2024 6)) (Sim.era5 2021 2020) (Sim.disk []) =
    (inl (SystemExit "start year must be less than end year"), Sim.disk [], [])
  ∧ exit_status
      (outcome (main (Sim.archive (Sim.month 2024 6)) (Sim.era5 2021 2020)
         (Sim.disk []))) = 1.
Proof.
  apply (invalid_range_exits (Sim.archive (Sim.month 2024 6))
           (Sim.era5 2021 2020) (Sim.disk [])).
  simpl. lia.
Defined.

Lemma existing_file_skipped_witness :
  let sys := Sim.archive (Sim.month 2024 6) in
  let dir := "/data/db/cds/total_precipitation" in
  let w := Sim.disk ["/data/db/cds/total_precipitation/2020_01.nc"] in
  let next :=
    months_loop sys "reanalysis-era5-land" "total_precipitation" dir
      (PStr (pretty 2020)) [2] (datetime_now sys w).2 in
  months_loop sys "reanalysis-era5-land" "total_precipitation" dir
    (PInt 2020) [1; 2] w =
    (outcome next, final next,
     [EvNow (datetime_now sys w).1;
      EvIsfile (target_of dir (2020, 1)) true;
      EvPrint (msg_exists (target_of dir (2020, 1)))] ++ trace next).
Proof.
  apply (existing_file_skipped (Sim.archive (Sim.month 2024 6))
           "reanalysis-era5-land" "total_precipitation"
           "/data/db/cds/total_precipitation" (PInt 2020) 2020 1 [2]
           (Sim.disk ["/data/db/cds/total_precipitation/2020_01.nc"])).
  - left. reflexivity.
  - unfold is_now. simpl. lia.
  - vm_compute. reflexivity.
Defined.

Lemma guard_before_file_check_witness :
  let sys := Sim.archive (Sim.month 2020 1) in
  let dir := "/data/db/cds/total_precipitation" in
  let w := Sim.disk ["/data/db/cds/total_precipitation/2020_01.nc"] in
  os_path_isfile sys (target_of dir (2020, 1)) w = true
  ∧ months_loop sys "reanalysis-era5-land" "total_precipitation" dir
      (PInt 2020) [1; 2] w =
      (inr Broke, (datetime_now sys w).2,
       [EvNow (datetime_now sys w).1;
        EvPrint (msg_current (target_of dir (2020, 1)))])
  ∧ ∀ b, EvIsfile (target_of dir (2020, 1)) b
           ∉ (months_loop sys "reanalysis-era5-land" "total_precipitation" dir
                (PInt 2020) [1; 2] w).2.
Proof.
  split; [vm_compute; reflexivity|].
  apply (guard_before_file_check (Sim.archive (Sim.month 2020 1))
           "reanalysis-era5-land" "total_precipitation"
           "/data/db/cds/total_precipitation" (PInt 2020) 2020 1 [2]
           (Sim.disk ["/data/db/cds/total_precipitation/2020_01.nc"])).
  - left. reflexivity.
  - unfold is_now. simpl. lia.
Defined.

Lemma current_month_guard_witness :
  let sys := Sim.archive (Sim.month 2020 3) in
  let options := Sim.era5 2020 2022 in
  let w := Sim.disk [] in
  ∃ tail steps,
    trace (main sys options w) =
      EvMakedirs (output_dir options) true :: tail ++
      steps_events (opt_dataset options) (opt_variable options)
        (output_dir options) steps
    ∧ tail `prefix_of` [EvClient]
    ∧ ∀ st, st ∈ steps → is_now (st_now st) (st_cell st) →
        st_action st = SkipCurrent
        ∧ ∀ m ds rq, (st_cell st).2 ≤ m →
            (ds, rq, target_of (output_dir options) ((st_cell st).1, m))
              ∉ retrievals (main sys options w).2.
Proof.
  apply (current_month_guard (Sim.archive (Sim.month 2020 3))
           (Sim.era5 2020 2022) (Sim.disk [])).
  simpl. lia.
Defined.

Lemma second_run_idle_witness :
  let sys := Sim.archive (Sim.month 2020 3) in
  let options := Sim.era5 2019 2021 in
  let first := main sys options (Sim.disk []) in
  outcome first = inr tt
  ∧ length (retrievals (trace first)) = 14%nat
  ∧ retrievals (trace (main sys options (final first))) = [].
Proof.
  split; [vm_compute; reflexivity|].
  split; [vm_compute; reflexivity|].
  apply (second_run_idle (Sim.archive (Sim.month 2020 3)) (Sim.era5 2019 2021)
           (Sim.month 2020 3) (Sim.disk [])
           (final (main (Sim.archive (Sim.month 2020 3)) (Sim.era5 2019 2021)
              (Sim.disk [])))
           (trace (main (Sim.archive (Sim.month 2020 3)) (Sim.era5 2019 2021)
              (Sim.disk [])))).
  - apply archive_persistent.
  - apply archive_steady.
  - vm_compute. reflexivity.
Defined.

Lemma target_layout_witness :
  let sys := Sim.archive (Sim.month 2020 3) in
  let options := Sim.era5 2020 2021 in
  let w := Sim.disk [] in
  (plain_directory (opt_output_directory options)
   ∧ plain_name (opt_variable options))
  ∧ (∃ rest,
       trace (main sys options w) = EvMakedirs (output_dir options) true :: rest)
  ∧ Forall (λ p, ∃ c, c ∈ grid (opt_start options) (opt_end options)
                      ∧ p = os_path_join
                              (os_path_join (opt_output_directory options)
                                 (opt_variable options))
                              (pretty c.1 +:+ "_" +:+ format_02d c.2 +:+ ".nc"))
      (paths_used (trace (main sys options w)))
  ∧ (plain_directory (opt_output_directory options) →
     plain_name (opt_variable options) →
     output_dir options
       = opt_output_directory options +:+ "/" +:+ opt_variable options
     ∧ Forall (λ p, ∃ c, c ∈ grid (opt_start options) (opt_end options)
                         ∧ p = opt_output_directory options +:+ "/" +:+
                               opt_variable options +:+ "/" +:+
                               pretty c.1 +:+ "_" +:+ format_02d c.2 +:+ ".nc")
         (paths_used (trace (main sys options w)))).
Proof.
  split; [by vm_compute|].
  apply (target_layout (Sim.archive (Sim.month 2020 3)) (Sim.era5 2020 2021)
           (Sim.disk [])).
  simpl. lia.
Defined.


Lemma later_years_processed_witness :
  let sys := Sim.archive (Sim.month 2020 3) in
  let options := Sim.era5 2020 2022 in
  let w := Sim.disk [] in
  outcome (main sys options w) = inr tt
  ∧ EvPrint (msg_current (target_of (output_dir options) (2020, 3)))
      ∈ trace (main sys options w)
  ∧ ∀ y m, 2020 < y < 2022 → 1 ≤ m ≤ 12 →
      EvIsfile (target_of (output_dir options) (y, m))
        (os_path_isfile sys (target_of (output_dir options) (y, m)) w)
        ∈ trace (main sys options w)
      ∧ (os_path_isfile sys (target_of (output_dir options) (y, m)) w = false →
         EvRetrieve (opt_dataset options)
           (request_of (opt_variable options) (y, m))
           (target_of (output_dir options) (y, m))
           ∈ trace (main sys options w)).
Proof.
  apply (later_years_processed (Sim.archive (Sim.month 2020 3))
           (Sim.era5 2020 2022) (Sim.month 2020 3) (Sim.disk [])).
  - apply archive_persistent.
  - apply archive_reliable.
  - apply archive_steady.
  - simpl. lia.
  - simpl. lia.
  - simpl. lia.
Defined.

(** C8, as stated, fails: with the absolute path [/srv/era5] as the
    variable, [os.path.join] drops the output directory, and the first
    path the run tests is [/srv/era5/2020_01.nc], which is not
    [/data/db/cds//srv/era5/<year>_<month>.nc] for any cell. *)
Lemma absolute_variable_leaves_layout :
  let sys := Sim.archive (Sim.month 2024 6) in
  trace (main sys Sim.absolute (Sim.disk [])) !! 0%nat
    = Some (EvMakedirs "/srv/era5" true)
  ∧ paths_used (trace (main sys Sim.absolute (Sim.disk []))) !! 0%nat
    = Some "/srv/era5/2020_01.nc"
  ∧ ¬ Forall (λ p, ∃ c, p = layout_path Sim.absolute c)
        (paths_used (trace (main sys Sim.absolute (Sim.disk [])))).
Proof.
  split; [vm_compute; reflexivity|].
  split; [vm_compute; reflexivity|].
  intros Hall.
  assert ("/srv/era5/2020_01.nc"
            ∈ paths_used (trace (main (Sim.archive (Sim.month 2024 6)) Sim.absolute
                            (Sim.disk [])))) as Hin.
  { apply list_elem_of_lookup. exists 0%nat. vm_compute. reflexivity. }
  destruct (proj1 (Forall_forall _ _) Hall _ Hin) as [c Hc].
  unfold layout_path in Hc. cbn in Hc. discriminate Hc.
Qed.

(** ** When a call raises *)

Section Failure.
Context {World Err : Type}.
Variable sys : System World Err.
Variables dataset variable dir : string.

Local Abbreviation months := (months_loop sys dataset variable dir).
Local Abbreviation years := (years_loop sys dataset variable dir).

(** A year that ends with an exception ends with the retrieval that
    raised it. *)
Lemma months_failure (v : scalar) (y : Z) (ms : list Z) (w : World)
    (x : Exn Err) :
  year_is v y →
  outcome (months v ms w) = inl x →
  ∃ e pre ds rq t,
    x = Propagated e
    ∧ trace (months v ms w) = pre ++ [EvRetrieve ds rq t]
    ∧ client_retrieve sys ds rq t (final (months v ms w)) = inl e.
Proof.
  revert v w. induction ms as [|m ms IH]; intros v w Hv; [done|].
  rewrite (months_cons sys _ _ _ v y m ms w Hv). cbn zeta.
  assert (year_is (PStr (pretty y)) y) as Hs by (by right).
  case_bool_decide as Hguard; [done|].
  destruct (os_path_isfile sys _ _).
  - cbn [fst snd]. intros Hx.
    destruct (IH _ _ Hs Hx) as (e & pre & ds & rq & t & -> & -> & Hcall).
    exists e, (pass_events dataset variable dir (datetime_now sys w).1 (y, m)
                SkipExists ++ pre), ds, rq, t.
    by rewrite <- app_assoc.
  - destruct (client_retrieve sys _ _ _ _) as [e|w2] eqn:Hcall.
    + cbn [fst snd]. intros [= <-].
      exists e, [EvNow (datetime_now sys w).1;
                 EvIsfile (target_of dir (y, m)) false;
                 EvPrint (msg_downloading (target_of dir (y, m)))].
      by eexists _, _, _.
    + cbn [fst snd]. intros Hx.
      destruct (IH _ _ Hs Hx) as (e & pre & ds & rq & t & -> & -> & Hcall').
      exists e, (pass_events dataset variable dir (datetime_now sys w).1 (y, m)
                  Download ++ pre), ds, rq, t.
      by rewrite <- app_assoc.
Qed.

Lemma years_failure (ys : list Z) (w : World) (x : Exn Err) :
  outcome (years ys w) = inl x →
  ∃ e pre ds rq t,
    x = Propagated e
    ∧ trace (years ys w) = pre ++ [EvRetrieve ds rq t]
    ∧ client_retrieve sys ds rq t (final (years ys w)) = inl e.
Proof.
  revert w. induction ys as [|y ys IH]; intros w; [done|].
  cbn [years_loop]. rewrite bind_run.
  pose proof (months_failure (PInt y) y (range 1 13) w) as Hyear.
  destruct (months (PInt y) (range 1 13) w) as [[[x1|ex] w1] t1];
    cbn [fst snd] in *.
  - intros [= <-]. by apply Hyear; [left|].
  - intros Hx.
    destruct (IH _ Hx) as (e & pre & ds & rq & t & -> & -> & Hcall).
    exists e, (t1 ++ pre), ds, rq, t. by rewrite <- app_assoc.
Qed.

End Failure.

Section PipedRun.
Context {World Err : Type}.
Variable sys : System World Err.
Variable out : Console World Err.
Variables dataset variable dir : string.

Local Abbreviation months := (Piped.months_loop sys out dataset variable dir).
Local Abbreviation years := (Piped.years_loop sys out dataset variable dir).
Local Abbreviation seen := (pass_events dataset variable dir).

(** The loop body with a standard output that can fail, case by case. *)
Lemma piped_months_cons (v : scalar) (y m : Z) (rest : list Z) (w : World) :
  year_is v y →
  months v (m :: rest) w =
    let now := (datetime_now sys w).1 in
    let w1 := (datetime_now sys w).2 in
    let target := target_of dir (y, m) in
    if bool_decide (is_now now (y, m)) then
      match stdout_write out (msg_current target) w1 with
      | inl e => (inl (Propagated e), w1, seen now (y, m) SkipCurrent)
      | inr w2 => (inr Broke, w2, seen now (y, m) SkipCurrent)
      end
    else if os_path_isfile sys target w1 then
      match stdout_write out (msg_exists target) w1 with
      | inl e => (inl (Propagated e), w1, seen now (y, m) SkipExists)
      | inr w2 =>
          let r := months (PStr (pretty y)) rest w2 in
          (outcome r, final r, seen now (y, m) SkipExists ++ trace r)
      end
    else
      match stdout_write out (msg_downloading target) w1 with
      | inl e =>
          (inl (Propagated e), w1,
           [EvNow now; EvIsfile target false; EvPrint (msg_downloading target)])
      | inr w2 =>
          match client_retrieve sys dataset (request_of variable (y, m))
                  target w2 with
          | inl e => (inl (Propagated e), w2, seen now (y, m) Download)
          | inr w3 =>
              let r := months (PStr (pretty y)) rest w3 in
              (outcome r, final r, seen now (y, m) Download ++ trace r)
          end
      end.
Proof.
  intros Hv.
  assert (format_plain v = pretty y) as Hfmt by (by destruct Hv as [->| ->]).
  cbn [Piped.months_loop]. rewrite bind_run. unfold call_now.
  destruct (datetime_now sys w) as [now w1] eqn:Hnow. cbn [fst snd].
  rewrite (guard_eqb v y m now Hv), Hfmt.
  unfold pass_events, step_events, target_of, file_name, request_of.
  cbn [fst snd st_cell st_now st_action].
  case_bool_decide as Hguard.
  - rewrite bind_run. unfold Piped.print, lift_call.
    by destruct (stdout_write out _ w1).
  - rewrite bind_run. unfold call_isfile. cbn [fst snd].
    destruct (os_path_isfile sys _ w1) eqn:Hfile.
    + rewrite bind_run. unfold Piped.print, lift_call.
      by destruct (stdout_write out _ w1).
    + rewrite bind_run. unfold Piped.print, lift_call.
      destruct (stdout_write out _ w1) as [e|w2]; [done|]. cbn [fst snd].
      rewrite bind_run. unfold call_retrieve, lift_call.
      destruct (client_retrieve sys _ _ _ w2) as [e|w3]; done.
Qed.

(** A year that ends with an exception ends with the call that raised
    it. *)
Lemma piped_months_failure (v : scalar) (y : Z) (ms : list Z) (w : World)
    (x : Exn Err) :
  year_is v y →
  outcome (months v ms w) = inl x →
  ∃ e pre ev,
    x = Propagated e
    ∧ trace (months v ms w) = pre ++ [ev]
    ∧ raises_piped sys out ev (final (months v ms w)) e.
Proof.
  revert v w. induction ms as [|m ms IH]; intros v w Hv; [done|].
  rewrite (piped_months_cons v y m ms w Hv). cbn zeta.
  assert (year_is (PStr (pretty y)) y) as Hs by (by right).
  set (now := (datetime_now sys w).1). set (w1 := (datetime_now sys w).2).
  case_bool_decide as Hguard.
  { destruct (stdout_write out _ w1) as [e|w2] eqn:Hout; [|done].
    intros [= <-].
    by exists e, [EvNow now], (EvPrint (msg_current (target_of dir (y, m)))). }
  destruct (os_path_isfile sys _ w1).
  - destruct (stdout_write out _ w1) as [e|w2] eqn:Hout.
    + intros [= <-].
      by exists e, [EvNow now; EvIsfile (target_of dir (y, m)) true],
           (EvPrint (msg_exists (target_of dir (y, m)))).
    + cbn [fst snd]. intros Hx.
      destruct (IH _ _ Hs Hx) as (e & pre & ev & -> & -> & Hcall).
      exists e, (seen now (y, m) SkipExists ++ pre), ev.
      by rewrite <- app_assoc.
  - destruct (stdout_write out _ w1) as [e|w2] eqn:Hout.
    { intros [= <-].
      by exists e, [EvNow now; EvIsfile (target_of dir (y, m)) false],
           (EvPrint (msg_downloading (target_of dir (y, m)))). }
    destruct (client_retrieve sys _ _ _ w2) as [e|w3] eqn:Hcall.
    + intros [= <-].
      by exists e, [EvNow now; EvIsfile (target_of dir (y, m)) false;
                    EvPrint (msg_downloading (target_of dir (y, m)))],
           (EvRetrieve dataset (request_of variable (y, m))
              (target_of dir (y, m))).
    + cbn [fst snd]. intros Hx.
      destruct (IH _ _ Hs Hx) as (e & pre & ev & -> & -> & Hcall').
      exists e, (seen now (y, m) Download ++ pre), ev.
      by rewrite <- app_assoc.
Qed.

Lemma piped_years_failure (ys : list Z) (w : World) (x : Exn Err) :
  outcome (years ys w) = inl x →
  ∃ e pre ev,
    x = Propagated e
    ∧ trace (years ys w) = pre ++ [ev]
    ∧ raises_piped sys out ev (final (years ys w)) e.
Proof.
  revert w. induction ys as [|y ys IH]; intros w; [done|].
  cbn [Piped.years_loop]. rewrite bind_run.
  pose proof (piped_months_failure (PInt y) y (range 1 13) w) as Hyear.
  destruct (months (PInt y) (range 1 13) w) as [[[x1|ex] w1] t1];
    cbn [fst snd] in *.
  - intros [= <-]. by apply Hyear; [left|].
  - intros Hx.
    destruct (IH _ Hx) as (e & pre & ev & -> & -> & Hcall).
    exists e, (t1 ++ pre), ev. by rewrite <- app_assoc.
Qed.

(** When every write succeeds and leaves the world as it is, the script
    is the one with the total [print]. *)
Lemma piped_months_quiet (v : scalar) (y : Z) (ms : list Z) (w : World) :
  (∀ line w', stdout_write out line w' = inr w') →
  year_is v y →
  months v ms w = months_loop sys dataset variable dir v ms w.
Proof.
  intros Hquiet. revert v w. induction ms as [|m ms IH]; intros v w Hv; [done|].
  rewrite (piped_months_cons v y m ms w Hv),
    (months_cons sys _ _ _ v y m ms w Hv). cbn zeta.
  assert (year_is (PStr (pretty y)) y) as Hs by (by right).
  rewrite !Hquiet. case_bool_decide; [done|].
  destruct (os_path_isfile sys _ _); [by rewrite IH|].
  destruct (client_retrieve sys _ _ _ _); [done|]. by rewrite IH.
Qed.

Lemma piped_years_quiet (ys : list Z) (w : World) :
  (∀ line w', stdout_write out line w' = inr w') →
  years ys w = years_loop sys dataset variable dir ys w.
Proof.
  intros Hquiet. revert w. induction ys as [|y ys IH]; intros w; [done|].
  cbn [Piped.years_loop years_loop]. rewrite !bind_run.
  rewrite (piped_months_quiet (PInt y) y) by (done || by left).
  destruct (months_loop sys _ _ _ _ _ w) as [[[e|ex] w1] t1]; [done|].
  cbn [fst snd]. by rewrite IH.
Qed.

End PipedRun.

Section Outcomes.
Context {World Err : Type}.
Variable sys : System World Err.
Variable out : Console World Err.

Lemma piped_main_exit (options : Options) (w : World) :
  ¬ opt_start options < opt_end options →
  Piped.main sys out options w =
    (inl (SystemExit "start year must be less than end year"), w, []).
Proof.
  intros Hge. unfold Piped.main.
  by rewrite (proj2 (Z.ltb_ge _ _)) by lia.
Qed.

Lemma piped_main_run (options : Options) (w : World) :
  opt_start options < opt_end options →
  Piped.main sys out options w =
    match os_makedirs sys (output_dir options) true w with
    | inl e => (inl (Propagated e), w, [EvMakedirs (output_dir options) true])
    | inr w1 =>
        match cdsapi_Client sys w1 with
        | inl e =>
            (inl (Propagated e), w1,
             [EvMakedirs (output_dir options) true; EvClient])
        | inr w2 =>
            let r := Piped.years_loop sys out (opt_dataset options)
                       (opt_variable options) (output_dir options)
                       (range (opt_start options) (opt_end options)) w2 in
            (outcome r, final r,
             EvMakedirs (output_dir options) true :: EvClient :: trace r)
        end
    end.
Proof.
  intros Hlt. unfold Piped.main.
  rewrite (proj2 (Z.ltb_lt _ _)) by done. cbn [negb].
  rewrite bind_run. unfold call_makedirs, lift_call. fold (output_dir options).
  destruct (os_makedirs sys _ true w) as [e|w1]; [done|]. cbn [fst snd].
  rewrite bind_run. unfold call_Client, lift_call.
  destruct (cdsapi_Client sys w1) as [e|w2]; done.
Qed.

(** With a standard output that never fails, [Piped.main] is [main]: what
    is proved of [main] holds of the script as long as its lines go out. *)
Lemma piped_main_quiet (options : Options) (w : World) :
  (∀ line w', stdout_write out line w' = inr w') →
  Piped.main sys out options w = main sys options w.
Proof.
  intros Hquiet.
  destruct (decide (opt_start options < opt_end options)) as [Hlt|Hge].
  2: { by rewrite piped_main_exit, main_exit. }
  rewrite piped_main_run, main_run by done.
  destruct (os_makedirs sys _ true w) as [e|w1]; [done|].
  destruct (cdsapi_Client sys w1) as [e|w2]; [done|].
  by rewrite piped_years_quiet.
Qed.

(** X1: a run that does not end normally either was refused at once (the
    message of [sys.exit], nothing called, the world untouched), or was
    ended by a call that raised, [os.makedirs], [cdsapi.Client], one of the
    three [print] calls or [client.retrieve]: that call is the last event
    of the trace, the world is the one it was made in, and nothing was
    caught or tried again. *)
Theorem uncaught_exception_ends_run (options : Options) (w : World)
    (x : Exn Err) :
  outcome (Piped.main sys out options w) = inl x →
  (x = SystemExit "start year must be less than end year"
   ∧ opt_end options ≤ opt_start options
   ∧ trace (Piped.main sys out options w) = []
   ∧ final (Piped.main sys out options w) = w)
  ∨ (opt_start options < opt_end options
     ∧ ∃ e pre ev,
         x = Propagated e
         ∧ trace (Piped.main sys out options w) = pre ++ [ev]
         ∧ raises_piped sys out ev (final (Piped.main sys out options w)) e).
Proof.
  destruct (decide (opt_start options < opt_end options)) as [Hlt|Hge].
  2: { rewrite piped_main_exit by done. intros [= <-]. left.
       split_and!; [done|lia|done|done]. }
  rewrite piped_main_run by done. intros Hx. right. split; [done|].
  destruct (os_makedirs sys _ true w) as [e|w1] eqn:Hmk.
  { injection Hx as <-. by exists e, [], (EvMakedirs (output_dir options) true). }
  destruct (cdsapi_Client sys w1) as [e|w2] eqn:Hcl.
  { injection Hx as <-.
    by exists e, [EvMakedirs (output_dir options) true], EvClient. }
  cbn zeta in *. cbn [fst snd] in *.
  destruct (piped_years_failure sys out _ _ _ _ _ _ Hx)
    as (e & pre & ev & -> & -> & Hcall).
  exists e, (EvMakedirs (output_dir options) true :: EvClient :: pre), ev.
  done.
Qed.

End Outcomes.

Lemma uncaught_exception_ends_run_witness :
  let sys := Sim.archive (Sim.month 2024 6) in
  let out := broken_pipe
               (msg_downloading "/data/db/cds/total_precipitation/2020_03.nc") in
  let run := Piped.main sys out (Sim.era5 2020 2021) (Sim.disk []) in
  outcome run = inl (Propagated "BrokenPipeError")
  ∧ length (retrievals (trace run)) = 2%nat
  ∧ last (trace run)
    = Some (EvPrint
              (msg_downloading "/data/db/cds/total_precipitation/2020_03.nc"))
  ∧ ((Propagated "BrokenPipeError"
        = SystemExit "start year must be less than end year"
      ∧ opt_end (Sim.era5 2020 2021) ≤ opt_start (Sim.era5 2020 2021)
      ∧ trace run = []
      ∧ final run = Sim.disk [])
     ∨ (opt_start (Sim.era5 2020 2021) < opt_end (Sim.era5 2020 2021)
        ∧ ∃ e pre ev,
            Propagated "BrokenPipeError" = Propagated e
            ∧ trace run = pre ++ [ev]
            ∧ raises_piped sys out ev (final run) e)).
Proof.
  intros sys out run.
  assert (outcome run = inl (Propagated "BrokenPipeError")) as Hout
    by (vm_compute; reflexivity).
  split; [exact Hout|]. split; [vm_compute; reflexivity|].
  split; [vm_compute; reflexivity|].
  exact (uncaught_exception_ends_run sys out (Sim.era5 2020 2021) (Sim.disk [])
           (Propagated "BrokenPipeError") Hout).
Defined.

(** ** Where a retrieval sits in the trace *)

Section Splits.

Lemma split_at {A} (a b l1 l2 : list A) (x : A) :
  a ++ b = l1 ++ x :: l2 →
  (∃ a2, a = l1 ++ x :: a2 ∧ l2 = a2 ++ b)
  ∨ (∃ k, l1 = a ++ k ∧ b = k ++ x :: l2).
Proof.
  revert l1. induction a as [|h a IH]; intros l1 Heq.
  { right. by exists l1. }
  destruct l1 as [|h1 l1]; cbn in Heq.
  - injection Heq as -> <-. left. by exists a.
  - injection Heq as -> Heq. destruct (IH _ Heq) as [(a2 & -> & ->)|(k & -> & ->)].
    + left. by exists a2.
    + right. by exists k.
Qed.

(** Within one pass, a retrieval can only be the last event of a
    download, after the negative file test and the progress line. *)
Lemma pass_retrieve (ds var dir : string) (now : datetime) (c : cell)
    (a : action) (l1 l2 : list Event) (d : string) (r : request) (p : string) :
  pass_events ds var dir now c a = l1 ++ EvRetrieve d r p :: l2 →
  a = Download
  ∧ l1 = [EvNow now; EvIsfile p false; EvPrint (msg_downloading p)]
  ∧ l2 = []
  ∧ (d, r, p) = fetch ds var dir c.
Proof.
  unfold pass_events, step_events. cbn [st_cell st_now st_action].
  intros Heq.
  destruct a;
    repeat (destruct l1 as [|e0 l1]; cbn [app] in Heq;
            [try discriminate Heq|injection Heq as <- Heq]);
    try (destruct l1; discriminate Heq).
  injection Heq as <- <- <- <-. done.
Qed.

Lemma passes_retrieve (ds var dir : string) (steps : list step)
    (l1 l2 : list Event) (d : string) (r : request) (p : string) :
  steps_events ds var dir steps = l1 ++ EvRetrieve d r p :: l2 →
  ∃ l0 now,
    l1 = l0 ++ [EvNow now; EvIsfile p false; EvPrint (msg_downloading p)].
Proof.
  revert l1. induction steps as [|[c now a] steps IH]; intros l1 Heq.
  { destruct l1; discriminate Heq. }
  change (pass_events ds var dir now c a ++ steps_events ds var dir steps
          = l1 ++ EvRetrieve d r p :: l2) in Heq.
  apply split_at in Heq as [(a2 & Hpass & _)|(k & -> & Hrest)].
  - apply pass_retrieve in Hpass as (_ & -> & _ & _). by exists [], now.
  - destruct (IH _ Hrest) as (l0 & now' & ->).
    exists (pass_events ds var dir now c a ++ l0), now'.
    by rewrite <- app_assoc.
Qed.

End Splits.

Section Announced.
Context {World Err : Type}.
Variable sys : System World Err.

(** X2: wherever a retrieval call stands in the trace of a run, the three
    events before it are a clock reading, the test of its own target with
    the answer "no such file", and the line "downloading ..." for that
    target: nothing is requested unannounced or over a file that was seen. *)
Theorem retrieval_follows_absent_test (options : Options) (w : World)
    (l1 l2 : list Event) (d : string) (r : request) (p : string) :
  trace (main sys options w) = l1 ++ EvRetrieve d r p :: l2 →
  ∃ l0 now,
    l1 = l0 ++ [EvNow now; EvIsfile p false; EvPrint (msg_downloading p)].
Proof.
  destruct (decide (opt_start options < opt_end options)) as [Hlt|Hge].
  2: { rewrite main_exit by done. intros Heq. destruct l1; discriminate Heq. }
  destruct (main_shape sys options w Hlt)
    as (tail & steps & -> & Htail & Hsteps).
  intros Heq.
  change ((EvMakedirs (output_dir options) true :: tail) ++
          steps_events (opt_dataset options) (opt_variable options)
            (output_dir options) steps = l1 ++ EvRetrieve d r p :: l2) in Heq.
  apply split_at in Heq as [(a2 & Hpre & _)|(k & -> & Hrest)].
  - destruct Htail as [k Hk]. destruct tail as [|e tail].
    + destruct l1 as [|? [|? ?]]; discriminate Hpre.
    + injection Hk as <- Hk. destruct tail; [|done].
      destruct l1 as [|? [|? [|? ?]]]; discriminate Hpre.
  - destruct (passes_retrieve _ _ _ _ _ _ _ _ _ Hrest) as (l0 & now & ->).
    exists ((EvMakedirs (output_dir options) true :: tail) ++ l0), now.
    by rewrite <- app_assoc.
Qed.

End Announced.

Lemma retrieval_follows_absent_test_witness :
  let sys := Sim.archive (Sim.month 2020 2) in
  let t := "/data/db/cds/total_precipitation/2020_01.nc" in
  ∃ l0 now,
    [EvMakedirs "/data/db/cds/total_precipitation" true; EvClient;
     EvNow (Sim.month 2020 2); EvIsfile t false; EvPrint (msg_downloading t)]
    = l0 ++ [EvNow now; EvIsfile t false; EvPrint (msg_downloading t)].
Proof.
  intros sys t.
  apply (retrieval_follows_absent_test sys (Sim.era5 2020 2021) (Sim.disk [])
           _ [EvNow (Sim.month 2020 2);
              EvPrint (msg_current
                         "/data/db/cds/total_precipitation/2020_02.nc")]
           "reanalysis-era5-land"
           (described_request "total_precipitation" (2020, 1)) t).
  vm_compute. reflexivity.
Defined.

(** ** Files that are there *)

Section Present.
Context {World Err : Type}.
Variable sys : System World Err.
Variables dataset variable dir : string.
Hypothesis Hkeeps : persistent sys.

Local Abbreviation months := (months_loop sys dataset variable dir).
Local Abbreviation years := (years_loop sys dataset variable dir).
Local Abbreviation isfile := (os_path_isfile sys).

(** A file that is there when a year starts is there when it ends, and is
    not requested in between. *)
Lemma months_keep (v : scalar) (y : Z) (ms : list Z) (w : World) (p : string) :
  year_is v y →
  isfile p w = true →
  isfile p (final (months v ms w)) = true
  ∧ ∀ d r, (d, r, p) ∉ retrievals (trace (months v ms w)).
Proof.
  revert v w. induction ms as [|m ms IH]; intros v w Hv Hp.
  { split; [done|]. intros d r. apply not_elem_of_nil. }
  rewrite (months_cons sys _ _ _ v y m ms w Hv). cbn zeta.
  assert (year_is (PStr (pretty y)) y) as Hs by (by right).
  assert (isfile p (datetime_now sys w).2 = true) as Hp1
    by (by rewrite (now_keeps sys Hkeeps)).
  case_bool_decide as Hguard.
  { split; [done|]. intros d r. apply not_elem_of_nil. }
  destruct (isfile (target_of dir (y, m)) _) eqn:Hfile.
  - destruct (IH _ _ Hs Hp1) as [Hend Hnone]. cbn [fst snd].
    split; [done|]. intros d r. apply Hnone.
  - assert (p ≠ target_of dir (y, m)) as Hne by congruence.
    destruct (client_retrieve sys _ _ _ _) as [e|w2] eqn:Hcall.
    + cbn [fst snd]. split; [done|]. intros d r.
      intros [= _ _ ?]%list_elem_of_singleton. done.
    + assert (isfile p w2 = true) as Hp2
        by (by eapply retrieve_keeps).
      destruct (IH _ _ Hs Hp2) as [Hend Hnone]. cbn [fst snd].
      split; [done|]. intros d r [[= _ _ ?]|Hin]%elem_of_cons; [done|].
      by eapply Hnone.
Qed.

Lemma years_keep (ys : list Z) (w : World) (p : string) :
  isfile p w = true →
  isfile p (final (years ys w)) = true
  ∧ ∀ d r, (d, r, p) ∉ retrievals (trace (years ys w)).
Proof.
  revert w. induction ys as [|y ys IH]; intros w Hp.
  { split; [done|]. intros d r. apply not_elem_of_nil. }
  cbn [years_loop]. rewrite bind_run.
  destruct (months_keep (PInt y) y (range 1 13) w p (or_introl eq_refl) Hp)
    as [Hend1 Hnone1].
  destruct (months (PInt y) (range 1 13) w) as [[[x|ex] w1] t1];
    cbn [fst snd] in *; [done|].
  destruct (IH w1 Hend1) as [Hend2 Hnone2].
  split; [done|]. intros d r. unfold retrievals in *.
  rewrite omap_app, elem_of_app. intros [?|?]; [by eapply Hnone1|by eapply Hnone2].
Qed.

(** A retrieval that returned has left its target on disk for the rest of
    the year: that is every retrieval but the last one of a year that
    failed. *)
Lemma months_settled (v : scalar) (y : Z) (ms : list Z) (w : World)
    (l1 l2 : list Event) (d : string) (r : request) (p : string) :
  year_is v y →
  trace (months v ms w) = l1 ++ EvRetrieve d r p :: l2 →
  l2 ≠ [] ∨ (∃ ex, outcome (months v ms w) = inr ex) →
  isfile p (final (months v ms w)) = true.
Proof.
  revert v w l1. induction ms as [|m ms IH]; intros v w l1 Hv.
  { intros Heq. destruct l1; discriminate Heq. }
  rewrite (months_cons sys _ _ _ v y m ms w Hv). cbn zeta.
  assert (year_is (PStr (pretty y)) y) as Hs by (by right).
  case_bool_decide as Hguard.
  { cbn [snd]. intros Heq. by apply pass_retrieve in Heq as ([=] & _). }
  destruct (isfile (target_of dir (y, m)) _) eqn:Hfile.
  - cbn [fst snd]. intros [(a2 & Hpass & _)|(k & -> & Hrest)]%split_at Hcase.
    + by apply pass_retrieve in Hpass as ([=] & _).
    + by eapply IH.
  - destruct (client_retrieve sys _ _ _ _) as [e|w2] eqn:Hcall.
    + cbn [fst snd]. intros Heq [Hl2|[ex [=]]].
      by apply pass_retrieve in Heq as (_ & _ & -> & _).
    + cbn [fst snd]. intros [(a2 & Hpass & _)|(k & -> & Hrest)]%split_at Hcase.
      * apply pass_retrieve in Hpass as (_ & _ & _ & [= _ _ ->]).
        eapply proj1, months_keep; [done|]. by eapply retrieve_writes.
      * by eapply IH.
Qed.

Lemma years_settled (ys : list Z) (w : World)
    (l1 l2 : list Event) (d : string) (r : request) (p : string) :
  trace (years ys w) = l1 ++ EvRetrieve d r p :: l2 →
  l2 ≠ [] ∨ outcome (years ys w) = inr tt →
  isfile p (final (years ys w)) = true.
Proof.
  revert w l1. induction ys as [|y ys IH]; intros w l1.
  { intros Heq. destruct l1; discriminate Heq. }
  cbn [years_loop]. rewrite bind_run.
  pose proof (months_settled (PInt y) y (range 1 13) w) as Hyear.
  destruct (months (PInt y) (range 1 13) w) as [[[x|ex] w1] t1];
    cbn [fst snd] in *.
  - intros Heq [Hl2|[=]]. eapply Hyear; [by left|done|by left].
  - intros [(a2 & Hpass & ->)|(k & -> & Hrest)]%split_at Hcase.
    + eapply proj1, years_keep. eapply Hyear; [by left|done|].
      right. by exists ex.
    + by eapply IH.
Qed.

End Present.

Section Resume.
Context {World Err : Type}.
Variable sys : System World Err.

(** A file that is on disk when the run starts stays, and is not
    requested. *)
Lemma main_keep (options : Options) (w : World) (p : string) :
  persistent sys →
  os_path_isfile sys p w = true →
  os_path_isfile sys p (final (main sys options w)) = true
  ∧ ∀ d r, (d, r, p) ∉ retrievals (trace (main sys options w)).
Proof.
  intros Hkeeps Hp.
  destruct (decide (opt_start options < opt_end options)) as [Hlt|Hge].
  2: { rewrite main_exit by done. split; [done|].
       intros d r. apply not_elem_of_nil. }
  rewrite main_run by done.
  destruct (os_makedirs sys _ true w) as [e|w1] eqn:Hmk.
  { split; [done|]. intros d r. apply not_elem_of_nil. }
  assert (os_path_isfile sys p w1 = true) as Hp1
    by (by erewrite makedirs_keeps).
  destruct (cdsapi_Client sys w1) as [e|w2] eqn:Hcl.
  { split; [done|]. intros d r. apply not_elem_of_nil. }
  assert (os_path_isfile sys p w2 = true) as Hp2
    by (by erewrite client_keeps).
  cbn zeta. cbn [fst snd].
  by apply years_keep.
Qed.

(** X8: if no call removes a file (and a retrieval that returns has
    written its target), every target a run requests from the archive was
    absent when the run started, and every file that was present then is
    still present at the end, whatever the clock shows and however the run
    ends: the run never downloads over a file it found. *)
Theorem requested_targets_were_absent (options : Options) (w : World) :
  persistent sys →
  Forall (λ call, os_path_isfile sys call.2 w = false)
    (retrievals (trace (main sys options w)))
  ∧ ∀ p, os_path_isfile sys p w = true →
         os_path_isfile sys p (final (main sys options w)) = true.
Proof.
  intros Hkeeps. split.
  - apply Forall_forall. intros [[d r] p] Hin. cbn [snd].
    destruct (os_path_isfile sys p w) eqn:Hp; [|done].
    by destruct (proj2 (main_keep options w p Hkeeps Hp) d r).
  - intros p Hp. by apply main_keep.
Qed.

(** X9: under the same assumption a run can be resumed.  Every retrieval
    of a run that is followed by another event, or that belongs to a run
    that ended normally, has left its target on disk at the end of the
    run, and a second run from there does not request that target again,
    even if the first run was ended by an exception. *)
Theorem interrupted_run_resumes (options : Options) (w : World)
    (l1 l2 : list Event) (d : string) (r : request) (p : string) :
  persistent sys →
  trace (main sys options w) = l1 ++ EvRetrieve d r p :: l2 →
  l2 ≠ [] ∨ outcome (main sys options w) = inr tt →
  os_path_isfile sys p (final (main sys options w)) = true
  ∧ ∀ d' r',
      (d', r', p)
        ∉ retrievals (trace (main sys options (final (main sys options w)))).
Proof.
  intros Hkeeps Heq Hcase.
  assert (os_path_isfile sys p (final (main sys options w)) = true) as Hp.
  { destruct (decide (opt_start options < opt_end options)) as [Hlt|Hge].
    2: { rewrite main_exit in Heq by done. destruct l1; discriminate Heq. }
    rewrite main_run in Heq, Hcase |- * by done.
    destruct (os_makedirs sys _ true w) as [e|w1] eqn:Hmk.
    { destruct l1 as [|? [|? ?]]; discriminate Heq. }
    destruct (cdsapi_Client sys w1) as [e|w2] eqn:Hcl.
    { destruct l1 as [|? [|? [|? ?]]]; discriminate Heq. }
    cbn zeta in *. cbn [fst snd] in *.
    destruct l1 as [|e1 [|e2 l1]]; [discriminate Heq..|].
    injection Heq as <- <- Heq.
    by eapply years_settled. }
  split; [exact Hp|].
  by apply main_keep.
Qed.

End Resume.

Lemma flaky_persistent (now : datetime) (bad : string) :
  persistent (flaky_archive now bad).
Proof.
  split; simpl.
  - done.
  - intros d ok w w' p. case_match; [done|]. by intros [= <-].
  - by intros w w' p [= <-].
  - intros _ _ t w w' p. case_match; [done|]. intros [= <-]. simpl.
    intros Hp%bool_decide_eq_true. apply bool_decide_eq_true.
    apply elem_of_union. by right.
  - intros _ _ t w w'. case_match; [done|]. intros [= <-]. simpl.
    apply bool_decide_eq_true, elem_of_union. left. by apply elem_of_singleton.
Qed.

Lemma requested_targets_were_absent_witness :
  let sys := Sim.archive (Sim.month 2024 6) in
  let w := Sim.disk ["/data/db/cds/total_precipitation/2020_01.nc"] in
  let run := main sys (Sim.era5 2020 2021) w in
  length (retrievals (trace run)) = 11%nat
  ∧ Forall (λ call, os_path_isfile sys call.2 w = false)
      (retrievals (trace run))
  ∧ ∀ p, os_path_isfile sys p w = true →
         os_path_isfile sys p (final run) = true.
Proof.
  intros sys w run. split; [vm_compute; reflexivity|].
  exact (requested_targets_were_absent sys (Sim.era5 2020 2021) w
           (archive_persistent _)).
Defined.

Lemma interrupted_run_resumes_witness :
  let sys := flaky_archive (Sim.month 2024 6)
               "/data/db/cds/total_precipitation/2020_03.nc" in
  let run := main sys (Sim.era5 2020 2021) (Sim.disk []) in
  let p := "/data/db/cds/total_precipitation/2020_01.nc" in
  outcome run = inl (Propagated "HTTPError")
  ∧ os_path_isfile sys p (final run) = true
  ∧ ∀ d' r',
      (d', r', p)
        ∉ retrievals (trace (main sys (Sim.era5 2020 2021) (final run))).
Proof.
  intros sys run p. split; [vm_compute; reflexivity|].
  apply (interrupted_run_resumes sys (Sim.era5 2020 2021) (Sim.disk [])
           (take 5 (trace run)) (drop 6 (trace run))
           "reanalysis-era5-land"
           (described_request "total_precipitation" (2020, 1)) p
           (flaky_persistent _ _)).
  - vm_compute. reflexivity.
  - left. vm_compute. discriminate.
Defined.

(** ** Targets and file names *)

Section Names.

Lemma has_char_append (c : ascii) (a b : string) :
  has_char c (a +:+ b) = has_char c a || has_char c b.
Proof.
  induction a as [|x a IH]; [done|].
  change (has_char c (String x (a +:+ b))
          = has_char c (String x a) || has_char c b).
  cbn [has_char]. by rewrite IH, orb_assoc.
Qed.

Lemma format_02d_no_sep (m : Z) : has_char "/" (format_02d m) = false.
Proof.
  unfold format_02d. case_match.
  - rewrite has_char_append, pretty_Z_no_sep. done.
  - apply pretty_Z_no_sep.
Qed.

(** X5: the test of the guard compares two formatted strings, and it
    holds exactly when the two years are equal and the two months are
    equal, for all integers: no two different pairs are printed alike. *)
Theorem guard_compares_numbers (y m y' m' : Z) :
  String.eqb (format_plain (PInt y) +:+ "_" +:+ format_02d m)
    (pretty y' +:+ "_" +:+ format_02d m') = true
  ↔ y = y' ∧ m = m'.
Proof.
  pose proof (guard_eqb (PInt y) y m {| dt_year := y'; dt_month := m' |}
                (or_introl eq_refl)) as Heq.
  cbn [dt_year dt_month] in Heq. rewrite Heq, bool_decide_eq_true.
  unfold is_now. cbn [dt_year dt_month fst snd].
  split; intros [-> ->]; done.
Qed.

(** X6: in any directory, two cells have the same target path only if
    they are the same cell: no month is written over another month's
    file. *)
Theorem distinct_cells_distinct_targets (dir : string) (c1 c2 : cell) :
  target_of dir c1 = target_of dir c2 ↔ c1 = c2.
Proof.
  split; [apply (inj (target_of dir))|by intros ->].
Qed.

(** X7: the file name of a cell holds no slash, and the target is the
    directory, a slash unless the directory is empty or ends with one, and
    the file name: whatever year and month, the target is an entry of the
    working directory itself. *)
Theorem target_stays_in_directory (dir : string) (c : cell) :
  has_char "/" (file_name c) = false
  ∧ target_of dir c =
      dir +:+ (if bool_decide (dir = EmptyString) || endswith_sep dir
               then EmptyString else "/") +:+ file_name c.
Proof.
  split.
  - unfold file_name.
    by rewrite !has_char_append, pretty_Z_no_sep, format_02d_no_sep.
  - unfold target_of.
    rewrite os_path_join_relative by apply file_name_no_sep.
    by case_match.
Qed.

End Names.

(** ** Counting the calls of a run *)

Section Counting.
Context {World Err : Type}.
Variable sys : System World Err.

Lemma cell_lt_irrefl (c : cell) : ¬ cell_lt c c.
Proof. unfold cell_lt. lia. Qed.

Lemma grid_NoDup (start_year end_year : Z) : NoDup (grid start_year end_year).
Proof.
  pose proof (grid_sorted start_year end_year) as Hsorted.
  induction Hsorted as [|c l _ IH Hall]; constructor; [|done].
  intros Hin. apply (cell_lt_irrefl c).
  by apply (proj1 (Forall_forall _ _) Hall).
Qed.

Lemma length_cells (ys ms : list Z) :
  length (y ← ys; pair y <$> ms) = (length ys * length ms)%nat.
Proof.
  induction ys as [|y ys IH]; [done|].
  rewrite bind_cons, length_app, IH, length_fmap. cbn [length]. lia.
Qed.

Lemma length_grid (start_year end_year : Z) :
  length (grid start_year end_year)
  = (12 * Z.to_nat (end_year - start_year))%nat.
Proof.
  unfold grid. rewrite length_cells. unfold range.
  rewrite !length_seqZ. lia.
Qed.

Lemma readings_passes (ds var dir : string) (steps : list step) :
  clock_readings (steps_events ds var dir steps) = st_now <$> steps.
Proof.
  unfold steps_events, clock_readings.
  induction steps as [|st steps IH]; [done|].
  cbn [fmap list_fmap concat]. rewrite omap_app, IH.
  by destruct st as [c now []].
Qed.

Lemma readings_run (dir : string) (tail passes : list Event) :
  tail `prefix_of` [EvClient] →
  clock_readings (EvMakedirs dir true :: tail ++ passes)
  = clock_readings passes.
Proof.
  intros [k Hk]. unfold clock_readings. cbn [omap list_omap].
  rewrite omap_app. destruct tail as [|e tail]; [done|].
  injection Hk as <- Hk. by destruct tail.
Qed.

(** X3: the targets of the retrieval calls of a run are pairwise
    different: no file is requested twice in one run. *)
Theorem targets_requested_once (options : Options) (w : World) :
  NoDup (snd <$> retrievals (trace (main sys options w))).
Proof.
  destruct (decide (opt_start options < opt_end options)) as [Hlt|Hge].
  2: { rewrite main_exit by done. constructor. }
  destruct (main_shape sys options w Hlt)
    as (tail & steps & -> & Htail & Hsteps).
  rewrite retrievals_run, retrievals_passes by done.
  rewrite <- list_fmap_compose.
  apply (NoDup_fmap_2 (target_of (output_dir options))).
  eapply sublist_NoDup; [apply grid_NoDup|].
  etrans; [|by apply run_steps_grid].
  apply fmap_sublist, sublist_filter.
Qed.

(** X4: a run reads the clock at most once for each cell of the grid,
    that is at most twelve times for each year of the range, and it makes
    at most one retrieval call for each clock reading. *)
Theorem calls_bounded (options : Options) (w : World) :
  (length (retrievals (trace (main sys options w)))
   ≤ length (clock_readings (trace (main sys options w)))
   ≤ 12 * Z.to_nat (opt_end options - opt_start options))%nat.
Proof.
  destruct (decide (opt_start options < opt_end options)) as [Hlt|Hge].
  2: { rewrite main_exit by done. cbn. lia. }
  destruct (main_shape sys options w Hlt)
    as (tail & steps & -> & Htail & Hsteps).
  rewrite retrievals_run, retrievals_passes, readings_run, readings_passes
    by done.
  rewrite !length_fmap. split.
  - apply length_filter.
  - rewrite <- length_grid, <- (length_fmap st_cell).
    by apply sublist_length, run_steps_grid.
Qed.

Lemma passes_no_setup (ds var dir : string) (steps : list step) (e : Event) :
  e ∈ steps_events ds var dir steps →
  match e with
  | EvMakedirs _ _ | EvClient => False
  | _ => True
  end.
Proof.
  unfold steps_events. induction steps as [|st steps IH];
    [by intros ?%elem_of_nil|].
  cbn [fmap list_fmap concat]. intros [Hin|Hin]%elem_of_app; [|by apply IH].
  destruct st as [c now []]; cbn in Hin;
    repeat (apply elem_of_cons in Hin as [->|Hin]; [done|]);
    by apply elem_of_nil in Hin.
Qed.

(** X10: the directory is created once and the client is made once, at
    the start: [os.makedirs] can only be the first event of a trace, for
    the working directory and with [exist_ok=True], and [cdsapi.Client]
    only the second; no pass of the loop repeats them. *)
Theorem setup_once (options : Options) (w : World) (i : nat) :
  (∀ d ok, trace (main sys options w) !! i = Some (EvMakedirs d ok) →
     i = 0%nat ∧ d = output_dir options ∧ ok = true)
  ∧ (trace (main sys options w) !! i = Some EvClient → i = 1%nat).
Proof.
  destruct (decide (opt_start options < opt_end options)) as [Hlt|Hge].
  2: { rewrite main_exit by done. split; [intros d ok|]; by intros [=]. }
  destruct (main_shape sys options w Hlt)
    as (tail & steps & -> & Htail & Hsteps).
  assert (∀ j e, (tail ++ steps_events (opt_dataset options)
                    (opt_variable options) (output_dir options) steps) !! j
                 = Some e →
            match e with
            | EvMakedirs _ _ => False
            | EvClient => j = 0%nat
            | _ => True
            end) as Hrest.
  { intros j e Hj. destruct Htail as [k Hk]. destruct tail as [|e0 tail].
    - apply list_elem_of_lookup_2, passes_no_setup in Hj. by destruct e.
    - injection Hk as <- Hk. destruct tail; [|done].
      destruct j as [|j]; [by injection Hj as <-|].
      change (steps_events (opt_dataset options) (opt_variable options)
                (output_dir options) steps !! j = Some e) in Hj.
      apply list_elem_of_lookup_2, passes_no_setup in Hj. by destruct e. }
  destruct i as [|i].
  - split; [by intros d ok [= <- <-]|by intros [=]].
  - split.
    + intros d ok Hi. by apply Hrest in Hi.
    + intros Hi. apply Hrest in Hi. by rewrite Hi.
Qed.

End Counting.

(** ** The plan of a run *)

Section Filters.
Context {A : Type}.

Lemma filter_bool_cons (f : A → bool) (x : A) (l : list A) :
  filter f (x :: l) = if f x then x :: filter f l else filter f l.
Proof. rewrite filter_cons. by destruct (f x). Qed.

Lemma filter_bool_ext (f g : A → bool) (l : list A) :
  (∀ x, x ∈ l → f x = g x) → filter f l = filter g l.
Proof.
  induction l as [|x l IH]; intros Hext; [done|].
  rewrite !filter_bool_cons, (Hext x) by left.
  rewrite IH; [done|]. intros z Hz. apply Hext. by right.
Qed.

Lemma filter_bool_none (f : A → bool) (l : list A) :
  (∀ x, x ∈ l → f x = false) → filter f l = [].
Proof.
  induction l as [|x l IH]; intros Hnone; [done|].
  rewrite filter_bool_cons, (Hnone x) by left.
  apply IH. intros z Hz. apply Hnone. by right.
Qed.

End Filters.

Lemma filter_bool_fmap {A B} (h : A → B) (f : B → bool) (l : list A) :
  filter f (h <$> l) = h <$> filter (λ x, f (h x)) l.
Proof.
  induction l as [|x l IH]; [done|].
  rewrite fmap_cons, (filter_bool_cons f), (filter_bool_cons (λ x, f (h x))).
  rewrite IH. by destruct (f (h x)).
Qed.


Section Exact.
Context {World Err : Type}.
Variable sys : System World Err.
Variables dataset variable dir : string.
Variable now : datetime.
Hypothesis Hkeeps : persistent sys.
Hypothesis Hgood : reliable sys.
Hypothesis Hclock : steady_clock sys now.

Local Abbreviation months := (months_loop sys dataset variable dir).
Local Abbreviation years := (years_loop sys dataset variable dir).
Local Abbreviation isfile := (os_path_isfile sys).
Local Abbreviation target := (target_of dir).
Local Abbreviation wanted w :=
  (λ c : cell, negb (held_back now c) && negb (isfile (target c) w)).

Lemma held_back_spec (c : cell) :
  held_back now c = true
  ↔ c.1 = dt_year now ∧ 1 ≤ dt_month now ≤ 12 ∧ dt_month now ≤ c.2.
Proof.
  unfold held_back. rewrite !andb_true_iff, Z.eqb_eq, !Z.leb_le. lia.
Qed.

(** The months [k] to 12 of a year, when the guard has not fired before
    month [k]. *)
Lemma months_exact (v : scalar) (y k : Z) (n : nat) (w : World) :
  year_is v y →
  1 ≤ k →
  k + Z.of_nat n = 13 →
  (dt_year now = y → 1 ≤ dt_month now → k ≤ dt_month now) →
  retrievals (trace (months v (seqZ k (Z.of_nat n)) w))
  = fetch dataset variable dir
      <$> (pair y <$> filter (λ m, wanted w (y, m)) (seqZ k (Z.of_nat n))).
Proof.
  revert v k w. induction n as [|n IH]; intros v k w Hv Hone Hk Hbefore.
  { by rewrite seqZ_nil. }
  rewrite seqZ_cons by lia.
  replace (Z.pred (Z.of_nat (S n))) with (Z.of_nat n) by lia.
  rewrite (months_cons sys _ _ _ v y k _ w Hv). cbn zeta. rewrite Hclock.
  assert (year_is (PStr (pretty y)) y) as Hs by (by right).
  pose proof (now_keeps sys Hkeeps w) as Hnow.
  case_bool_decide as Hguard.
  - destruct Hguard as [Hy Hmonth]; cbn [fst snd] in Hy, Hmonth.
    rewrite filter_bool_none; [done|].
    intros m [->|Hm%elem_of_seqZ]%elem_of_cons;
      apply andb_false_intro1, negb_false_iff, held_back_spec;
      cbn [fst snd]; lia.
  - assert (held_back now (y, k) = false) as Hfree.
    { apply not_true_is_false. intros Hheld%held_back_spec.
      cbn [fst snd] in Hheld. apply Hguard. split; cbn [fst snd]; lia. }
    assert (dt_year now = y → 1 ≤ dt_month now → Z.succ k ≤ dt_month now)
      as Hnext.
    { intros Hy Hfirst. specialize (Hbefore Hy Hfirst).
      destruct (decide (dt_month now = k)) as [Heq|Hne]; [|lia].
      destruct Hguard. by split. }
    rewrite filter_bool_cons, Hfree. cbn [negb andb].
    destruct (isfile (target (y, k)) (datetime_now sys w).2) eqn:Hfile;
      rewrite Hnow in Hfile; rewrite Hfile; cbn [negb].
    + cbn [fst snd]. unfold retrievals in *. rewrite omap_app.
      cbn [pass_events step_events st_action omap list_omap app].
      rewrite (IH (PStr (pretty y)) (Z.succ k) _ Hs) by (done || lia).
      do 2 f_equal. apply filter_bool_ext. intros m _. by rewrite Hnow.
    + destruct (retrieve_returns sys Hgood dataset
                  (request_of variable (y, k)) (target (y, k))
                  (datetime_now sys w).2) as [w2 Hcall].
      rewrite Hcall. cbn [fst snd]. unfold retrievals in *. rewrite omap_app.
      rewrite (IH (PStr (pretty y)) (Z.succ k) _ Hs) by (done || lia).
      cbn [fmap list_fmap]. f_equal. do 2 f_equal.
      apply filter_bool_ext. intros m Hm%elem_of_seqZ.
      rewrite (retrieve_only sys Hgood _ _ _ _ _ (target (y, m)) Hcall).
      { by rewrite Hnow. }
      intros Heq%(inj target). injection Heq as Heq. lia.
Qed.

Lemma years_exact (ys : list Z) (w : World) :
  NoDup ys →
  retrievals (trace (years ys w))
  = fetch dataset variable dir
      <$> filter (wanted w) (y ← ys; pair y <$> range 1 13).
Proof.
  revert w. induction ys as [|y ys IH]; intros w Hnd; [done|].
  apply NoDup_cons in Hnd as [Hy Hnd].
  cbn [years_loop]. rewrite bind_run.
  pose proof (months_exact (PInt y) y 1 12 w (or_introl eq_refl)
                ltac:(lia) eq_refl) as Hyear.
  destruct (months_any sys dataset variable dir Hkeeps Hgood now Hclock
              (PInt y) y (range 1 13) w (or_introl eq_refl)
              (range_NoDup 1 13)) as ([ex Hex] & Hsame & _).
  change (seqZ 1 (Z.of_nat 12)) with (range 1 13) in Hyear.
  destruct (months (PInt y) (range 1 13) w) as [[o w1] t1].
  cbn [fst snd] in *. subst o. cbn [fst snd].
  unfold retrievals in *. rewrite omap_app, Hyear by lia.
  rewrite (IH w1 Hnd), bind_cons, filter_app, fmap_app. f_equal.
  - by rewrite filter_bool_fmap.
  - f_equal. apply filter_bool_ext.
    intros c (y' & (m & -> & Hm)%list_elem_of_fmap & Hy')%list_elem_of_bind.
    rewrite Hsame; [done|].
    intros m' _ Heq%(inj target). congruence.
Qed.

End Exact.

Section Planned.
Context {World Err : Type}.
Variable sys : System World Err.

(** X11: with an archive that answers every call and writes only its
    target, files that stay, and a clock on one month, the retrieval calls
    of a run are exactly those of its plan, in the order of the grid: the
    cells whose target is absent at the start, apart from the current
    year's months from the current month on.  Cells of later years are
    part of the plan; the run ends normally. *)
Theorem run_follows_plan (options : Options) (now : datetime) (w : World) :
  persistent sys → reliable sys → steady_clock sys now →
  retrievals (trace (main sys options w))
  = fetch (opt_dataset options) (opt_variable options) (output_dir options)
      <$> plan sys options now w
  ∧ (opt_start options < opt_end options →
     outcome (main sys options w) = inr tt).
Proof.
  intros Hkeeps Hgood Hclock.
  destruct (decide (opt_start options < opt_end options)) as [Hlt|Hge].
  2: { rewrite main_exit by done. split; [|done].
       unfold plan, grid, range.
       by rewrite (seqZ_nil (opt_start options)) by lia. }
  rewrite main_run by done.
  destruct (makedirs_returns sys Hgood (output_dir options) w) as [w1 Hmk].
  destruct (client_returns sys Hgood w1) as [w2 Hcl].
  rewrite Hmk, Hcl. cbn zeta. cbn [fst snd]. split.
  - unfold retrievals at 1. cbn [omap list_omap].
    fold (retrievals (trace (years_loop sys (opt_dataset options)
            (opt_variable options) (output_dir options)
            (range (opt_start options) (opt_end options)) w2))).
    rewrite (years_exact sys _ _ _ now Hkeeps Hgood Hclock)
      by apply range_NoDup.
    unfold plan, grid. f_equal. apply filter_bool_ext. intros c _.
    by erewrite client_keeps, makedirs_keeps.
  - intros _.
    by destruct (years_any sys (opt_dataset options) (opt_variable options)
                   (output_dir options) Hkeeps Hgood now Hclock
                   (range (opt_start options) (opt_end options)) w2
                   (range_NoDup _ _)) as [Hok _].
Qed.

End Planned.

Lemma run_follows_plan_witness :
  let sys := Sim.archive (Sim.month 2020 3) in
  let options := Sim.era5 2020 2022 in
  let w := Sim.disk ["/data/db/cds/total_precipitation/2021_07.nc"] in
  plan sys options (Sim.month 2020 3) w
  = [(2020, 1); (2020, 2);
     (2021, 1); (2021, 2); (2021, 3); (2021, 4); (2021, 5); (2021, 6);
     (2021, 8); (2021, 9); (2021, 10); (2021, 11); (2021, 12)]
  ∧ retrievals (trace (main sys options w))
    = fetch (opt_dataset options) (opt_variable options) (output_dir options)
        <$> plan sys options (Sim.month 2020 3) w
  ∧ (opt_start options < opt_end options →
     outcome (main sys options w) = inr tt).
Proof.
  intros sys options w. split; [vm_compute; reflexivity|].
  exact (run_follows_plan sys options (Sim.month 2020 3) w
           (archive_persistent _) (archive_reliable _) (archive_steady _)).
Defined.

(** ** Ranges *)

Section Ranges.
Context {World Err : Type}.
Variable sys : System World Err.

Lemma years_app (ds var dir : string) (ys1 ys2 : list Z) (w : World) :
  years_loop sys ds var dir (ys1 ++ ys2) w =
    match years_loop sys ds var dir ys1 w with
    | (inl e, w1, t1) => (inl e, w1, t1)
    | (inr _, w1, t1) =>
        let r := years_loop sys ds var dir ys2 w1 in
        (outcome r, final r, t1 ++ trace r)
    end.
Proof.
  revert w. induction ys1 as [|y ys1 IH]; intros w.
  { cbn. by destruct (years_loop sys ds var dir ys2 w) as [[o w2] t2]. }
  cbn [app years_loop]. rewrite !bind_run.
  destruct (months_loop sys ds var dir (PInt y) (range 1 13) w)
    as [[[e|ex] w1] t1]; [done|].
  cbn [fst snd]. rewrite IH.
  destruct (years_loop sys ds var dir ys1 w1) as [[[e|[]] w2] t2]; [done|].
  cbn zeta. cbn [fst snd]. by rewrite app_assoc.
Qed.

Lemma range_split (a b c : Z) :
  a ≤ b → b ≤ c → range a c = range a b ++ range b c.
Proof.
  intros Hab Hbc. unfold range.
  replace (c - a) with ((b - a) + (c - b)) by lia.
  rewrite seqZ_app by lia. do 2 f_equal. lia.
Qed.

(** X12: if [os.makedirs], [cdsapi.Client] and [client.retrieve] never
    raise, a run with [start < end] always comes to its end with status 0,
    whatever the clock shows, whatever is on disk and whatever the archive
    writes: only an exception can cut a run short. *)
Theorem reliable_run_completes (options : Options) (w : World) :
  (∀ d w', ∃ w'', os_makedirs sys d true w' = inr w'') →
  (∀ w', ∃ w'', cdsapi_Client sys w' = inr w'') →
  (∀ ds rq t w', ∃ w'', client_retrieve sys ds rq t w' = inr w'') →
  opt_start options < opt_end options →
  outcome (main sys options w) = inr tt
  ∧ exit_status (outcome (main sys options w)) = 0.
Proof.
  intros Hmakedirs Hclient Hretrieve Hlt.
  assert (outcome (main sys options w) = inr tt) as Hend; [|by rewrite Hend].
  destruct (outcome (main sys options w)) as [x|[]] eqn:Hout; [|done].
  rewrite main_run in Hout by done.
  destruct (Hmakedirs (output_dir options) w) as [w1 Hmk].
  destruct (Hclient w1) as [w2 Hcl].
  rewrite Hmk, Hcl in Hout. cbn zeta in Hout. cbn [fst snd] in Hout.
  destruct (years_failure sys _ _ _ _ _ _ Hout)
    as (e & pre & ds & rq & t & _ & _ & Hcall).
  destruct (Hretrieve ds rq t
              (final (years_loop sys (opt_dataset options)
                        (opt_variable options) (output_dir options)
                        (range (opt_start options) (opt_end options)) w2)))
    as [w3 Hret].
  congruence.
Qed.

(** X13: a later end year only adds to a run: the trace of the run up to
    [end] is the beginning of the trace of the run up to a later year,
    from the same world, and a run that failed fails in the same way. *)
Theorem longer_range_extends_run (options : Options) (later : Z) (w : World) :
  opt_start options < opt_end options →
  opt_end options ≤ later →
  let longer := {| opt_dataset := opt_dataset options;
                   opt_variable := opt_variable options;
                   opt_output_directory := opt_output_directory options;
                   opt_start := opt_start options;
                   opt_end := later |} in
  trace (main sys options w) `prefix_of` trace (main sys longer w)
  ∧ ∀ x, outcome (main sys options w) = inl x →
         main sys longer w = main sys options w.
Proof.
  intros Hlt Hle longer.
  rewrite (main_run sys options) by done.
  rewrite (main_run sys longer) by (cbn; lia).
  change (output_dir longer) with (output_dir options).
  cbn [opt_dataset opt_variable opt_start opt_end longer].
  destruct (os_makedirs sys _ true w) as [e|w1]; [done|].
  destruct (cdsapi_Client sys w1) as [e|w2]; [done|].
  cbn zeta.
  rewrite (range_split (opt_start options) (opt_end options) later) by lia.
  rewrite years_app.
  destruct (years_loop sys _ _ _ (range (opt_start options) (opt_end options))
              w2) as [[[e|[]] w3] t3]; cbn [fst snd].
  - done.
  - split; [|done]. do 2 apply prefix_cons. by apply prefix_app_r.
Qed.

End Ranges.

Lemma reliable_run_completes_witness :
  outcome (main (Sim.archive (Sim.month 2020 3)) (Sim.era5 2019 2022)
             (Sim.disk [])) = inr tt
  ∧ exit_status
      (outcome (main (Sim.archive (Sim.month 2020 3)) (Sim.era5 2019 2022)
                  (Sim.disk []))) = 0.
Proof.
  apply (reliable_run_completes (Sim.archive (Sim.month 2020 3))
           (Sim.era5 2019 2022) (Sim.disk [])).
  - apply (makedirs_returns _ (archive_reliable _)).
  - apply (client_returns _ (archive_reliable _)).
  - apply (retrieve_returns _ (archive_reliable _)).
  - simpl. lia.
Defined.

Lemma longer_range_extends_run_witness :
  let sys := flaky_archive (Sim.month 2024 6)
               "/data/db/cds/total_precipitation/2020_03.nc" in
  trace (main sys (Sim.era5 2020 2021) (Sim.disk []))
    `prefix_of` trace (main sys (Sim.era5 2020 2023) (Sim.disk []))
  ∧ ∀ x, outcome (main sys (Sim.era5 2020 2021) (Sim.disk [])) = inl x →
         main sys (Sim.era5 2020 2023) (Sim.disk [])
         = main sys (Sim.era5 2020 2021) (Sim.disk []).
Proof.
  intros sys.
  apply (longer_range_extends_run sys (Sim.era5 2020 2021) 2023 (Sim.disk [])).
  - simpl. lia.
  - simpl. lia.
Defined.

